(** * focotimer: countdown primitive, timer coordinator and polybar command channel

    A shallow embedding of the Go packages [focotimer] (api/timer.go,
    api/timer_manager.go) and [polybar] (gui/focotimer/polybar/polybar.go).

    - [time.Duration] is an [int64] count of nanoseconds: a [Z] with the
      wrap-around of Go's integer arithmetic written out ([wrap64]).
    - [time.Time] is an instant, counted in nanoseconds from Go's zero
      [Time]; [IsZero] is the test against that origin.
    - Pointers are indices into the stores of a [World]: the [TimerData]
      objects and the channels created so far.  A store only grows, as under
      a garbage collector that never frees a reachable object.
    - A nil dereference is a panic: operations return [option], [None] being
      the panic.
    - Goroutines (the broadcaster, the [time.AfterFunc] callbacks, concurrent
      callers of [Shutdown]) are interleaved by an explicit list of events or
      a step relation; a mutex-protected section is one step. *)

From Stdlib Require Import ZArith String Ascii List Lia Bool DecimalString.
From Stdlib Require DecimalPos DecimalZ.
From stdpp Require Import base option list.

Import ListNotations.

Module focotimer.

Local Open Scope Z_scope.

(** ** Durations and instants *)

Definition MinInt64 : Z := - 2 ^ 63.
Definition MaxInt64 : Z := 2 ^ 63 - 1.

(** The value range of [time.Duration]. *)
Definition int64 (z : Z) : Prop := MinInt64 <= z <= MaxInt64.

(** Two's-complement wrap-around of [int64] arithmetic. *)
Definition wrap64 (z : Z) : Z := (z + 2 ^ 63) mod 2 ^ 64 - 2 ^ 63.

Definition Nanosecond : Z := 1.
Definition Millisecond : Z := 1000000 * Nanosecond.
Definition Second : Z := 1000 * Millisecond.
Definition Minute : Z := 60 * Second.

(** [time.Time.IsZero]. *)
Definition IsZero (t : Z) : bool := t =? 0.

(** [time.Since(t)], that is [time.Now().Sub(t)]: the difference, saturated
    to the range of [time.Duration]. *)
Definition Since (now t : Z) : Z := Z.max MinInt64 (Z.min MaxInt64 (now - t)).

(** ** The runtime timer behind [*time.Timer] *)

Record RtTimer := mkRtTimer {
  when : Z;        (* the instant from which the callback may run *)
  active : bool    (* false once stopped or fired *)
}.

(** [Stop] of a [time.Timer]. *)
Definition RtStop (r : RtTimer) : RtTimer := mkRtTimer (when r) false.

(** [time.AfterFunc(d, f)]: a non-positive [d] fires at once. *)
Definition AfterFunc (now d : Z) : RtTimer := mkRtTimer (now + Z.max 0 d) true.

(** The closures stored in [TimerData.Handler], defunctionalised.  The only
    one the packages install is the closure of [TimerManager.Start]. *)
Inductive HandlerFn := closeDoneCh.

(** ** TimerData *)

Module TimerData.
Record t := mk {
  Timer : option RtTimer;
  Duration : Z;
  BreakDuration : Z;
  IsComplete : bool;
  StartedAt : Z;
  CompletedAt : Z;
  Handler : option HandlerFn
}.
End TimerData.

Definition NewTimer (d : Z) : TimerData.t :=
  TimerData.mk None d (1 * Minute) false 0 0 None.

Definition StartTimer (now : Z) (t : TimerData.t) : TimerData.t :=
  TimerData.mk
    (Some (AfterFunc now (TimerData.Duration t)))
    (TimerData.Duration t) (TimerData.BreakDuration t)
    false now (TimerData.CompletedAt t) (TimerData.Handler t).

Definition StopTimer (t : TimerData.t) : TimerData.t :=
  TimerData.mk
    (RtStop <$> TimerData.Timer t)
    (TimerData.Duration t) (TimerData.BreakDuration t)
    (TimerData.IsComplete t) (TimerData.StartedAt t)
    (TimerData.CompletedAt t) (TimerData.Handler t).

Definition Elapsed (now : Z) (t : TimerData.t) : Z :=
  if IsZero (TimerData.StartedAt t) || TimerData.IsComplete t then 0
  else Since now (TimerData.StartedAt t).

Definition Remaining (now : Z) (t : TimerData.t) : Z :=
  let elapsed := Elapsed now t in
  if TimerData.Duration t <? elapsed then 0
  else wrap64 (TimerData.Duration t - elapsed).

(** The first half of the closure given to [time.AfterFunc] in [StartTimer],
    the part run under the primitive's lock; the handler it read is invoked
    afterwards by [Fire] below. *)
Definition complete (now : Z) (t : TimerData.t) : TimerData.t :=
  TimerData.mk
    (RtStop <$> TimerData.Timer t)
    (TimerData.Duration t) (TimerData.BreakDuration t)
    true (TimerData.StartedAt t) now (TimerData.Handler t).

Definition setDuration (d : Z) (t : TimerData.t) : TimerData.t :=
  TimerData.mk
    (TimerData.Timer t) d (TimerData.BreakDuration t)
    (TimerData.IsComplete t) (TimerData.StartedAt t)
    (TimerData.CompletedAt t) (TimerData.Handler t).

Definition setHandler (h : option HandlerFn) (t : TimerData.t) : TimerData.t :=
  TimerData.mk
    (TimerData.Timer t) (TimerData.Duration t) (TimerData.BreakDuration t)
    (TimerData.IsComplete t) (TimerData.StartedAt t)
    (TimerData.CompletedAt t) h.

(** Whether the runtime timer of a primitive is pending. *)
Definition armed (t : TimerData.t) : bool :=
  match TimerData.Timer t with
  | Some r => active r
  | None => false
  end.

(** Whether the pending fire of a primitive is due at instant [now]. *)
Definition due (now : Z) (t : TimerData.t) : bool :=
  match TimerData.Timer t with
  | Some r => active r && (when r <=? now)
  | None => false
  end.

(** ** Channels *)

(** A channel of [time.Duration] or of [struct{}]: its capacity, the values
    buffered and not yet received, and whether it has been closed. *)
Record Chan := mkChan {
  cap : nat;
  buf : list Z;
  closed : bool
}.

(** [close(ch)] on an open channel. *)
Definition closeChan (c : Chan) : Chan := mkChan (cap c) (buf c) true.

(** [select { case ch <- v: default: }]: the value is buffered when there is
    room and dropped otherwise.  (The subscriber channels are handed out
    receive-only and are never closed.) *)
Definition trySend (v : Z) (c : Chan) : Chan :=
  if (length (buf c) <? cap c)%nat then mkChan (cap c) (buf c ++ [v]) (closed c)
  else c.

(** ** TimerManager *)

Module TimerManager.
Record t := mk {
  subs : list nat;       (* []chan time.Duration, as channel references *)
  Timer : option nat;    (* *TimerData, [None] is nil *)
  lastValue : Z;
  updates : nat;
  stopCh : nat;
  doneCh : nat
}.
End TimerManager.

(** The objects a coordinator lives among: the clock, the [TimerData]
    objects and channels allocated so far, the coordinator itself, and
    whether its broadcaster goroutine is still running. *)
Record World := mkWorld {
  clock : Z;
  timers : list TimerData.t;
  chans : list Chan;
  tm : TimerManager.t;
  broadcasting : bool
}.

Definition setTimers (ts : list TimerData.t) (w : World) : World :=
  mkWorld (clock w) ts (chans w) (tm w) (broadcasting w).

Definition setChans (cs : list Chan) (w : World) : World :=
  mkWorld (clock w) (timers w) cs (tm w) (broadcasting w).

(** The primitive the coordinator points to; [None] when [t.Timer] is nil. *)
Definition deref (w : World) : option (nat * TimerData.t) :=
  a ← TimerManager.Timer (tm w);
  p ← timers w !! a;
  Some (a, p).

(** Apply [f] to the coordinator's primitive in place, as a method called
    through the pointer [t.Timer] does; a nil pointer panics. *)
Definition withTimer (f : TimerData.t -> TimerData.t) (w : World) : option World :=
  '(a, p) ← deref w;
  Some (setTimers (<[a := f p]> (timers w)) w).

(** [NewTimerManager(duration)], called at instant [now].  The composite
    literal allocates the primitive and the three channels and sets nothing
    else: [subs] is nil and [lastValue] is the zero [Duration]. *)
Definition NewTimerManager (now : Z) (duration : Z) : World :=
  mkWorld now
    [NewTimer duration]
    [mkChan 0 [] false; mkChan 0 [] false; mkChan 0 [] false]
    (TimerManager.mk [] (Some 0%nat) 0 0%nat 1%nat 2%nat)
    true.

Definition Subscribe (w : World) : nat * World :=
  let ch := length (chans w) in
  let m := tm w in
  (ch,
   mkWorld (clock w) (timers w) (chans w ++ [mkChan 10 [] false])
     (TimerManager.mk (TimerManager.subs m ++ [ch]) (TimerManager.Timer m)
        (TimerManager.lastValue m) (TimerManager.updates m)
        (TimerManager.stopCh m) (TimerManager.doneCh m))
     (broadcasting w)).

(** One non-blocking send of [v] to each channel of [ss], in order. *)
Fixpoint sendAll (v : Z) (ss : list nat) (cs : list Chan) : list Chan :=
  match ss with
  | [] => cs
  | ch :: ss' =>
      sendAll v ss'
        (match cs !! ch with
         | Some c => <[ch := trySend v c]> cs
         | None => cs
         end)
  end.

(** One turn of the [ticker.C] case of [broadcast]. *)
Definition broadcastTick (w : World) : option World :=
  '(_, p) ← deref w;
  let remaining := Remaining (clock w) p in
  let m := tm w in
  Some (mkWorld (clock w) (timers w)
          (sendAll remaining (TimerManager.subs m) (chans w))
          (TimerManager.mk (TimerManager.subs m) (TimerManager.Timer m)
             remaining (TimerManager.updates m)
             (TimerManager.stopCh m) (TimerManager.doneCh m))
          (broadcasting w)).

(** The [t.stopCh] case of [broadcast]: taken only once the stop channel is
    closed, it ends the goroutine. *)
Definition broadcastStop (w : World) : World :=
  match chans w !! TimerManager.stopCh (tm w) with
  | Some c =>
      if closed c
      then mkWorld (clock w) (timers w) (chans w) (tm w) false
      else w
  | None => w
  end.

Definition Stop (w : World) : option World := withTimer StopTimer w.

Definition Reset (w : World) : option World :=
  '(_, p) ← deref w;
  let d := TimerData.Duration p in
  let m := tm w in
  Some (mkWorld (clock w)
          (timers w ++ [NewTimer d])
          (chans w ++ [mkChan 0 [] false])
          (TimerManager.mk (TimerManager.subs m) (Some (length (timers w)))
             d (TimerManager.updates m) (TimerManager.stopCh m)
             (length (chans w)))
          (broadcasting w)).

Definition Start (w : World) : option World :=
  match TimerManager.Timer (tm w) with
  | Some _ =>
      withTimer (fun p => StartTimer (clock w) (setHandler (Some closeDoneCh) p)) w
  | None => Some w
  end.

Definition Inc (w : World) : option World :=
  withTimer (fun p => setDuration (wrap64 (TimerData.Duration p + 5 * Second)) p) w.

Definition Dec (w : World) : option World :=
  withTimer (fun p =>
    if 5 * Second <? TimerData.Duration p
    then setDuration (wrap64 (TimerData.Duration p - 5 * Second)) p
    else setDuration 0 p) w.

Definition Snapshot (w : World) : Z := TimerManager.lastValue (tm w).

Definition Done (w : World) : nat := TimerManager.doneCh (tm w).

(** The closure installed by [Start], run when a countdown completes: it
    closes the coordinator's current [doneCh] unless it is closed already. *)
Definition runHandler (h : HandlerFn) (w : World) : option World :=
  match h with
  | closeDoneCh =>
      let ch := TimerManager.doneCh (tm w) in
      c ← chans w !! ch;
      if closed c then Some w
      else Some (setChans (<[ch := closeChan c]> (chans w)) w)
  end.

(** The timer of the primitive at address [a] expires and the closure
    [StartTimer] gave to [time.AfterFunc] runs at once, its handler
    included, before anything else happens.  The runtime does this only to a
    timer that is pending and due; otherwise nothing happens.  (A closure
    that has been started and runs later, after other events, is the matter
    of [step] below.) *)
Definition Fire (a : nat) (w : World) : option World :=
  match timers w !! a with
  | Some p =>
      if due (clock w) p then
        let w' := setTimers (<[a := complete (clock w) p]> (timers w)) w in
        match TimerData.Handler p with
        | Some h => runHandler h w'
        | None => Some w'
        end
      else Some w
  | None => Some w
  end.

(** ** Runs of a coordinator *)

(** What can happen to a coordinator: a call of one of its methods by some
    goroutine, a turn of the broadcaster, the runtime running the callback of
    the primitive at an address, or time passing. *)
Inductive Event :=
| CallSubscribe | CallStop | CallReset | CallStart | CallInc | CallDec
| Tick | StopBroadcast
| TimerFires (a : nat)
| Advance (dt : N).

Definition exec (e : Event) (w : World) : option World :=
  match e with
  | CallSubscribe => Some (snd (Subscribe w))
  | CallStop => Stop w
  | CallReset => Reset w
  | CallStart => Start w
  | CallInc => Inc w
  | CallDec => Dec w
  | Tick => if broadcasting w then broadcastTick w else Some w
  | StopBroadcast => Some (broadcastStop w)
  | TimerFires a => Fire a w
  | Advance dt =>
      Some (mkWorld (clock w + Z.of_N dt) (timers w) (chans w) (tm w)
              (broadcasting w))
  end.

Fixpoint run (es : list Event) (w : World) : option World :=
  match es with
  | [] => Some w
  | e :: es' => w' ← exec e w; run es' w'
  end.

(** ** The callback of a countdown as a goroutine *)

(** When a timer made by [time.AfterFunc] expires, the runtime starts its
    function in a goroutine of its own.  [Timer.Stop] keeps a timer that has
    not expired from expiring; a function that has been started runs all the
    same.  The closure [StartTimer] gives to [AfterFunc] tests nothing: it
    takes the lock of the primitive, sets [IsComplete] and [CompletedAt],
    reads [Handler], releases the lock and calls the handler it read.
    [Fire] is the case in which nothing comes in between: expiry, locked
    section and handler in one step.  Below they are three steps, and any
    other step may come between them. *)

(** The runtime takes an expired timer off its heap. *)
Definition expire (t : TimerData.t) : TimerData.t :=
  TimerData.mk
    (RtStop <$> TimerData.Timer t)
    (TimerData.Duration t) (TimerData.BreakDuration t)
    (TimerData.IsComplete t) (TimerData.StartedAt t)
    (TimerData.CompletedAt t) (TimerData.Handler t).

(** The locked section of the closure. *)
Definition finish (now : Z) (t : TimerData.t) : TimerData.t :=
  TimerData.mk
    (TimerData.Timer t)
    (TimerData.Duration t) (TimerData.BreakDuration t)
    true (TimerData.StartedAt t) now (TimerData.Handler t).

(** A coordinator together with the goroutines of its callbacks. *)
Record Sched := mkSched {
  world : World;
  started : list nat;          (* closures started by the runtime whose locked
                                  section has not run, by address of their primitive *)
  handlers : list HandlerFn    (* handlers read in a locked section and not yet called *)
}.

(** One goroutine of the primitive at [a] leaves the started ones. *)
Fixpoint takeOut (a : nat) (l : list nat) : option (list nat) :=
  match l with
  | [] => None
  | b :: l' => if Nat.eqb a b then Some l' else cons b <$> takeOut a l'
  end.

Inductive Step :=
| Do (e : Event)           (* an event of the coordinator *)
| TimerExpires (a : nat)   (* the runtime finds the timer of the primitive at [a]
                              pending and due, and starts its closure *)
| CallbackRuns (a : nat)   (* a started closure of that primitive runs its locked section *)
| HandlerRuns (k : nat).   (* the [k]-th waiting handler is called *)

Definition step (st : Step) (s : Sched) : option Sched :=
  let w := world s in
  match st with
  | Do e => w' ← exec e w; Some (mkSched w' (started s) (handlers s))
  | TimerExpires a =>
      match timers w !! a with
      | Some p =>
          if due (clock w) p
          then Some (mkSched (setTimers (<[a := expire p]> (timers w)) w)
                       (a :: started s) (handlers s))
          else Some s
      | None => Some s
      end
  | CallbackRuns a =>
      match takeOut a (started s), timers w !! a with
      | Some rest, Some p =>
          Some (mkSched (setTimers (<[a := finish (clock w) p]> (timers w)) w) rest
                  match TimerData.Handler p with
                  | Some h => h :: handlers s
                  | None => handlers s
                  end)
      | _, _ => Some s
      end
  | HandlerRuns k =>
      match handlers s !! k with
      | Some h =>
          w' ← runHandler h w;
          Some (mkSched w' (started s) (delete k (handlers s)))
      | None => Some s
      end
  end.

Fixpoint steps (sts : list Step) (s : Sched) : option Sched :=
  match sts with
  | [] => Some s
  | st :: sts' => s' ← step st s; steps sts' s'
  end.

(** A new coordinator: no callback has been started. *)
Definition boot (now d : Z) : Sched := mkSched (NewTimerManager now d) [] [].

End focotimer.

Module polybar.

Local Open Scope string_scope.
Local Open Scope Z_scope.

(** ** Allocation of the named pipe *)

(** The operating system as [mkfifoUnique] sees it.  The loop issues each
    call at most once per candidate path, so the outcome of a call is given
    as a function of the path; nothing is assumed about how the outcomes of
    different calls relate. *)
Record OS := mkOS {
  Getpid : Z;
  Mkfifo : string -> Z -> option Z;     (* [None]: created; [Some errno] *)
  Lstat : string -> option Z;           (* [Some mode]; [None]: an error *)
  OpenWriteNonblock : string -> bool    (* O_WRONLY|O_NONBLOCK open succeeded *)
}.

Definition EEXIST : Z := 17.
Definition ENOTEMPTY : Z := 39.

(** [os.ModeNamedPipe], bit 6 from the top of the 32-bit [FileMode]. *)
Definition ModeNamedPipe : Z := Z.shiftl 1 (32 - 1 - 6).

(** [FileMode.Perm]: the nine permission bits. *)
Definition Perm (mode : Z) : Z := Z.land mode 511.

(** [errors.Is(err, os.ErrExist) || err == syscall.EEXIST] for an [Errno]:
    [Errno.Is] maps [ErrExist] to [EEXIST] and [ENOTEMPTY]. *)
Definition isExist (errno : Z) : bool :=
  ((errno =? EEXIST) || (errno =? ENOTEMPTY)) || (errno =? EEXIST).

(** The verb [%d] of [fmt.Sprintf]. *)
Definition itoa (z : Z) : string := NilZero.string_of_int (Z.to_int z).

(** The path tried at iteration [i] of the loop. *)
Definition candidate (base : string) (pid i : Z) : string :=
  if i =? 0 then base ++ "." ++ itoa pid
  else base ++ "." ++ itoa pid ++ "." ++ itoa i.

Definition canUseFifo (os : OS) (path : string) : bool :=
  if OpenWriteNonblock os path then true else false.

(** The [(string, error)] result of [mkfifoUnique]. *)
Inductive Alloc :=
| Allocated (path : string)               (* path, nil *)
| MkfifoFailed (path : string) (errno : Z) (* "mkfifo %q: %w" *)
| Exhausted (base : string).              (* "unable to allocate unique FIFO ..." *)

(** The loop [for i := i0; i < i0 + left; i++] of [mkfifoUnique]. *)
Fixpoint mkfifoFrom (os : OS) (base : string) (mode : Z) (pid i : Z) (left : nat) : Alloc :=
  match left with
  | O => Exhausted base
  | S left' =>
      let path := candidate base pid i in
      match Mkfifo os path (Perm mode) with
      | None => Allocated path
      | Some err =>
          if isExist err then
            match Lstat os path with
            | None => mkfifoFrom os base mode pid (i + 1) left'
            | Some fi =>
                if negb (Z.land fi ModeNamedPipe =? 0) then
                  if canUseFifo os path then Allocated path
                  else mkfifoFrom os base mode pid (i + 1) left'
                else mkfifoFrom os base mode pid (i + 1) left'
            end
          else MkfifoFailed path err
      end
  end.

Definition mkfifoUnique (os : OS) (base : string) (mode : Z) : Alloc :=
  mkfifoFrom os base mode (Getpid os) 0 1000.

(** ** Package state, timer wrappers and the command switch *)

Inductive LogLine :=
| LogReceived (cmd : string)    (* "polybar.handle_cmds: received command: %q" *)
| LogUnknown (cmd : string).    (* "polybar.handle_cmds: unknown command: %q" *)

Section Package.

(** The [func()] values a client may register with [AddHandler]. *)
Context {Callback : Type}.

(** The package-level variables the command loop reads and writes.  The
    pointer [timerManager] is carried with the world of the coordinator it
    points to; [None] is the nil pointer. *)
Record State := mkState {
  fifoPipePath : string;
  guiToggleCallback : option Callback;
  timerManager : option focotimer.World;
  logged : list LogLine
}.

(** What calling a registered callback does; [None] is a panic. *)
Variable call : Callback -> State -> option State.

Definition SetTimerManager (tm : option focotimer.World) (s : State) : State :=
  mkState (fifoPipePath s) (guiToggleCallback s) tm (logged s).

Definition getTimerManager (s : State) : option focotimer.World := timerManager s.

Definition AddHandler (f : option Callback) (s : State) : State :=
  mkState (fifoPipePath s) f (timerManager s) (logged s).

Definition logPrintf (l : LogLine) (s : State) : State :=
  mkState (fifoPipePath s) (guiToggleCallback s) (timerManager s) (logged s ++ [l])%list.

(** [if tm := getTimerManager(); tm != nil { tm.M() }] for a method [M]. *)
Definition onManager (M : focotimer.World -> option focotimer.World) (s : State) : option State :=
  match getTimerManager s with
  | Some tm => tm' ← M tm; Some (SetTimerManager (Some tm') s)
  | None => Some s
  end.

Definition TimerStart (s : State) : option State := onManager focotimer.Start s.
Definition TimerStop (s : State) : option State := onManager focotimer.Stop s.
Definition TimerInc (s : State) : option State := onManager focotimer.Inc s.
Definition TimerDec (s : State) : option State := onManager focotimer.Dec s.

(** The channel returned, [None] being the nil channel. *)
Definition Subscribe (s : State) : option nat * State :=
  match getTimerManager s with
  | Some tm =>
      let '(ch, tm') := focotimer.Subscribe tm in
      (Some ch, SetTimerManager (Some tm') s)
  | None => (None, s)
  end.

Definition Snapshot (s : State) : Z :=
  match getTimerManager s with
  | Some tm => focotimer.Snapshot tm
  | None => 0
  end.

(** The body of [for scanner.Scan()] in [handle_cmds], for one token. *)
Definition handle_cmd (cmd : string) (s : State) : option State :=
  let s := logPrintf (LogReceived cmd) s in
  if String.eqb cmd "start" then TimerStart s
  else if String.eqb cmd "gui" then
    match guiToggleCallback s with
    | Some cb => call cb s
    | None => Some s
    end
  else if String.eqb cmd "inc" then TimerInc s
  else if String.eqb cmd "dec" then TimerDec s
  else if String.eqb cmd "stop" then TimerStop s
  else Some (logPrintf (LogUnknown cmd) s).

(** The scanner loop over the tokens of one opening of the pipe. *)
Fixpoint handle_cmds_scan (cmds : list string) (s : State) : option State :=
  match cmds with
  | [] => Some s
  | cmd :: rest => s' ← handle_cmd cmd s; handle_cmds_scan rest s'
  end.

End Package.

Arguments State : clear implicits.

(** ** Shutdown *)

(** [Shutdown] may be called from several goroutines while the command loop
    runs in its own.  Each goroutine is a program counter; one step of one
    goroutine is chosen at a time.  The system is taken from the moment
    [Main] has launched the command loop ([wg.Add(1)] done, the pipe
    created). *)














(** ** Status-bar text *)

(** [time.Duration.Truncate(m)]: [d - d%m], with Go's remainder, which has
    the sign of [d]. *)
Definition Truncate (d m : Z) : Z :=
  if m <=? 0 then d else focotimer.wrap64 (d - Z.rem d m).

Definition truncToSecond (d : Z) : Z :=
  if d <? 0
  then focotimer.wrap64 (- Truncate (focotimer.wrap64 (- d)) focotimer.Second)
  else Truncate d focotimer.Second.

(** The last byte of a string, and the string without it: [s[len(s)-1]] and
    [s[:len(s)-1]]. *)
Fixpoint lastByte (s : string) : option ascii :=
  match s with
  | EmptyString => None
  | String c EmptyString => Some c
  | String _ s' => lastByte s'
  end.

Fixpoint dropLast (s : string) : string :=
  match s with
  | EmptyString => EmptyString
  | String c EmptyString => EmptyString
  | String c s' => String c (dropLast s')
  end.

Definition newline : ascii := Ascii.ascii_of_nat 10.

Definition polybarActionButton (button action : string) : string :=
  let lbl :=
    if (0 <? String.length button)%nat &&
       match lastByte button with
       | Some c => Ascii.eqb c newline
       | None => false
       end
    then dropLast button
    else button in
  "%{A:" ++ action ++ ":} " ++ lbl ++ " %{A}".

End polybar.

(** * Vocabulary of the statements *)

Module coordinator.

Import focotimer.

(** The duration held by the coordinator's primitive. *)
Definition duration (w : World) : option Z :=
  '(_, p) ← deref w; Some (TimerData.Duration p).

(** Whether the channel [ch] of [w] exists and is closed. *)
Definition isClosed (w : World) (ch : nat) : option bool :=
  closed <$> chans w !! ch.

(** A coordinator as its own methods leave it: its primitive and its done
    channel exist, and a primitive whose runtime timer was ever created
    carries the completion handler [Start] installs before arming it. *)
Record wf (w : World) : Prop := mkWf {
  wf_timer : exists a, TimerManager.Timer (tm w) = Some a /\ (a < length (timers w))%nat;
  wf_done : (TimerManager.doneCh (tm w) < length (chans w))%nat;
  wf_handler : forall a p, timers w !! a = Some p ->
    is_Some (TimerData.Timer p) -> TimerData.Handler p = Some closeDoneCh
}.

(** The events that do not write [lastValue]: all but a turn of the
    broadcaster and a call of [Reset]. *)
Definition keepsLastValue (e : Event) : bool :=
  match e with
  | Tick | CallReset => false
  | _ => true
  end.

End coordinator.

Module allocation.

Import polybar.

Section Candidates.

Variable os : OS.
Variable base : string.
Variable mode : Z.

(** The [n]-th path tried: [base.<pid>], then [base.<pid>.<n>]. *)
Definition nth_candidate (n : nat) : string :=
  candidate base (Getpid os) (Z.of_nat n).

(** Creating the pipe at [path] succeeds. *)
Definition created (path : string) : bool :=
  match Mkfifo os path (Perm mode) with
  | None => true
  | Some _ => false
  end.

(** Creating the pipe at [path] fails because the path already exists. *)
Definition existsAlready (path : string) : bool :=
  match Mkfifo os path (Perm mode) with
  | None => false
  | Some errno => isExist errno
  end.

(** The entry at [path] is a named pipe. *)
Definition isNamedPipe (path : string) : bool :=
  match Lstat os path with
  | Some fi => Z.testbit fi 25
  | None => false
  end.

(** The entry at [path] is a named pipe and a non-blocking open for writing
    on it succeeds. *)
Definition reusable (path : string) : bool :=
  isNamedPipe path && OpenWriteNonblock os path.

(** The path exists already and is passed over. *)
Definition skipped (path : string) : bool :=
  existsAlready path && negb (reusable path).

End Candidates.

End allocation.

Module shutdown.

Import polybar.






End shutdown.

Module lifetime.

Import focotimer.

Local Open Scope Z_scope.

(** The broadcaster is running and its stop channel, the second channel the
    constructor makes, is open; the done channel is a later one. *)
Definition alive (w : World) : Prop :=
  broadcasting w = true /\
  TimerManager.stopCh (tm w) = 1%nat /\
  (1 < TimerManager.doneCh (tm w))%nat /\
  closed <$> chans w !! 1%nat = Some false.

(** The subscriber list: distinct channels, none of them the done channel,
    each of capacity 10 and open; and no channel holds more than its
    capacity. *)
Definition subscribed (w : World) : Prop :=
  NoDup (TimerManager.subs (tm w)) /\
  (TimerManager.doneCh (tm w) < length (chans w))%nat /\
  (forall ch, ch ∈ TimerManager.subs (tm w) ->
     ch <> TimerManager.doneCh (tm w) /\
     exists c, chans w !! ch = Some c /\ cap c = 10%nat /\ closed c = false) /\
  Forall (fun c => (length (buf c) <= cap c)%nat) (chans w).

(** Durations are [int64] values, no primitive was started in the future,
    and no negative value sits in a channel. *)
Definition timed (w : World) : Prop :=
  (forall a p, timers w !! a = Some p ->
     int64 (TimerData.Duration p) /\
     (TimerData.StartedAt p = 0 \/ TimerData.StartedAt p <= clock w)) /\
  Forall (fun c => Forall (fun v => 0 <= v) (buf c)) (chans w).

(** What a send leaves of a channel: its capacity and state, its bound, and
    the sign of its values when the value sent is not negative. *)
Definition sentFrom (v : Z) (c c' : Chan) : Prop :=
  cap c' = cap c /\ closed c' = closed c /\
  ((length (buf c) <= cap c)%nat -> (length (buf c') <= cap c')%nat) /\
  (0 <= v -> Forall (fun x => 0 <= x) (buf c) -> Forall (fun x => 0 <= x) (buf c')).

Definition isFire (e : Event) : bool :=
  match e with
  | TimerFires _ => true
  | _ => false
  end.

Definition isAdjust (e : Event) : bool :=
  match e with
  | CallInc | CallDec => true
  | _ => false
  end.

Definition isStart (e : Event) : bool :=
  match e with
  | CallStart => true
  | _ => false
  end.

Definition isStartStep (st : Step) : bool :=
  match st with
  | Do e => isStart e
  | _ => false
  end.

(** The coordinator event a token of the command channel stands for. *)
Definition eventOf (cmd : string) : option Event :=
  if String.eqb cmd "start" then Some CallStart
  else if String.eqb cmd "inc" then Some CallInc
  else if String.eqb cmd "dec" then Some CallDec
  else if String.eqb cmd "stop" then Some CallStop
  else None.

End lifetime.

Module dispatch.

Import polybar.





End dispatch.

(** * Properties of the countdown primitive *)

Section TimerDataFacts.

Import focotimer.
Local Open Scope Z_scope.

Lemma wrap64_id (z : Z) : int64 z -> wrap64 z = z.
Proof.
  unfold int64, MinInt64, MaxInt64, wrap64.
  replace (2 ^ 64) with 18446744073709551616 by reflexivity.
  replace (2 ^ 63) with 9223372036854775808 by reflexivity.
  intros Hz. rewrite Z.mod_small; lia.
Qed.

Lemma Elapsed_unstarted (now : Z) (t : TimerData.t) :
  IsZero (TimerData.StartedAt t) = true -> Elapsed now t = 0.
Proof. intros H. unfold Elapsed. now rewrite H. Qed.

Lemma Elapsed_complete (now : Z) (t : TimerData.t) :
  TimerData.IsComplete t = true -> Elapsed now t = 0.
Proof. intros H. unfold Elapsed. rewrite H. now rewrite orb_true_r. Qed.

(** What [Remaining] computes whenever [Elapsed] is zero: the duration,
    floored at zero by the guard [t.Duration < elapsed]. *)
Lemma Remaining_of_zero_elapsed (now : Z) (t : TimerData.t) :
  Elapsed now t = 0 ->
  int64 (TimerData.Duration t) ->
  Remaining now t = Z.max 0 (TimerData.Duration t).
Proof.
  intros He Hd. unfold Remaining. rewrite He.
  destruct (Z.ltb_spec (TimerData.Duration t) 0) as [Hlt | Hge].
  - lia.
  - rewrite Z.sub_0_r, wrap64_id by exact Hd. lia.
Qed.

(** C1.  A primitive that was never started ([StartedAt] is the zero
    instant) and holds a duration [d >= 0] answers [Remaining() = d], the
    whole duration.  The specification and the package's test
    [TestTimerData_Remaining] say [0]. *)
Theorem Remaining_never_started (now : Z) (t : TimerData.t) :
  IsZero (TimerData.StartedAt t) = true ->
  0 <= TimerData.Duration t <= MaxInt64 ->
  Remaining now t = TimerData.Duration t.
Proof.
  intros Hs Hd.
  rewrite Remaining_of_zero_elapsed.
  - lia.
  - now apply Elapsed_unstarted.
  - unfold int64, MinInt64, MaxInt64 in *. lia.
Qed.

Lemma Remaining_never_started_witness :
  IsZero (TimerData.StartedAt (NewTimer (200 * Millisecond))) = true /\
  Remaining 1000 (NewTimer (200 * Millisecond)) = 200 * Millisecond.
Proof.
  split; [reflexivity |].
  apply (Remaining_never_started 1000 (NewTimer (200 * Millisecond))).
  - reflexivity.
  - vm_compute. split; discriminate.
Defined.

(** C4, as amended.  Once the countdown has fired ([IsComplete] is true),
    [Elapsed()] is [0] and [Remaining()] is the configured duration when that
    duration is not negative, and [0] when it is negative. *)
Theorem Remaining_after_completion (now : Z) (t : TimerData.t) :
  TimerData.IsComplete t = true ->
  int64 (TimerData.Duration t) ->
  Elapsed now t = 0 /\
  (0 <= TimerData.Duration t -> Remaining now t = TimerData.Duration t) /\
  (TimerData.Duration t < 0 -> Remaining now t = 0).
Proof.
  intros Hc Hd.
  pose proof (Elapsed_complete now t Hc) as He.
  pose proof (Remaining_of_zero_elapsed now t He Hd) as Hr.
  repeat split; [exact He | intros; lia | intros; lia].
Qed.

Lemma Remaining_after_completion_witness :
  let t := complete 300 (StartTimer 0 (NewTimer (200 * Millisecond))) in
  TimerData.IsComplete t = true /\ Elapsed 500 t = 0 /\
  Remaining 500 t = 200 * Millisecond.
Proof.
  intros t.
  destruct (Remaining_after_completion 500 t) as (He & Hpos & _).
  - reflexivity.
  - vm_compute. split; discriminate.
  - split; [reflexivity |]. split; [exact He |].
    apply Hpos. vm_compute. discriminate.
Defined.

(** C4 without the amendment fails: a primitive created with the duration
    [-1ns] fires at once; afterwards [Remaining()] is [0], which is not its
    configured duration. *)
Lemma fired_negative_duration_reports_zero :
  let t := complete 0 (StartTimer 0 (NewTimer (-1))) in
  due 0 (StartTimer 0 (NewTimer (-1))) = true /\
  TimerData.IsComplete t = true /\
  Elapsed 0 t = 0 /\
  Remaining 0 t <> TimerData.Duration t.
Proof. vm_compute. repeat split; discriminate. Qed.

End TimerDataFacts.

(** * Properties of the timer coordinator *)

Section TimerManagerFacts.

Import focotimer coordinator.
Local Open Scope Z_scope.

Lemma deref_Some (w : World) (a : nat) (p : TimerData.t) :
  deref w = Some (a, p) <->
  TimerManager.Timer (tm w) = Some a /\ timers w !! a = Some p.
Proof.
  unfold deref. split.
  - destruct (TimerManager.Timer (tm w)) as [a' |]; simpl; [| discriminate].
    destruct (timers w !! a') as [p' |] eqn:E; simpl; [| discriminate].
    intros [= <- <-]. auto.
  - intros [-> Hp]. simpl. now rewrite Hp.
Qed.

Lemma withTimer_Some (f : TimerData.t -> TimerData.t) (w : World) a p :
  deref w = Some (a, p) ->
  withTimer f w = Some (setTimers (<[a := f p]> (timers w)) w).
Proof. intros H. unfold withTimer. now rewrite H. Qed.

Lemma deref_withTimer (f : TimerData.t -> TimerData.t) (w : World) a p :
  deref w = Some (a, p) ->
  deref (setTimers (<[a := f p]> (timers w)) w) = Some (a, f p).
Proof.
  intros H. apply deref_Some in H as [Ha Hp].
  apply deref_Some. simpl. split; [exact Ha |].
  apply list_lookup_insert_eq. eapply lookup_lt_Some; eauto.
Qed.

Lemma duration_Some (w : World) (d : Z) :
  duration w = Some d <->
  exists a p, deref w = Some (a, p) /\ TimerData.Duration p = d.
Proof.
  unfold duration. split.
  - destruct (deref w) as [[a p] |]; simpl; [| discriminate].
    intros [= <-]. eauto.
  - intros (a & p & -> & <-). reflexivity.
Qed.

Lemma withTimer_duration (f : TimerData.t -> TimerData.t) (w : World) (d d' : Z) :
  duration w = Some d ->
  (forall p, TimerData.Duration p = d -> TimerData.Duration (f p) = d') ->
  exists w', withTimer f w = Some w' /\ duration w' = Some d'.
Proof.
  intros (a & p & Hw & Hd)%duration_Some Hf.
  exists (setTimers (<[a := f p]> (timers w)) w). split.
  - exact (withTimer_Some f w a p Hw).
  - apply duration_Some. exists a, (f p). split.
    + exact (deref_withTimer f w a p Hw).
    + now apply Hf.
Qed.

Lemma Inc_sets_duration (w : World) (d : Z) :
  duration w = Some d ->
  exists w', Inc w = Some w' /\ duration w' = Some (wrap64 (d + 5 * Second)).
Proof.
  intros Hd. apply (withTimer_duration _ w d); [exact Hd |].
  intros p <-. reflexivity.
Qed.

Lemma Dec_sets_duration (w : World) (d : Z) :
  duration w = Some d ->
  exists w', Dec w = Some w' /\
    duration w' = Some (if 5 * Second <? d then wrap64 (d - 5 * Second) else 0).
Proof.
  intros Hd. apply (withTimer_duration _ w d); [exact Hd |].
  intros p <-. now destruct (5 * Second <? TimerData.Duration p).
Qed.

(** C5, as amended.  For every duration [d] with [0 <= d <= MaxInt64 - 5s]
    held by the coordinator's primitive, [Inc()] followed by [Dec()] leaves
    the duration exactly [d]; and for every duration below the 5-second
    step, [Dec()] sets the duration to exactly zero. *)
Theorem Inc_Dec_duration (w : World) (d : Z) :
  duration w = Some d ->
  (0 <= d <= MaxInt64 - 5 * Second ->
     (Inc w ≫= Dec) ≫= duration = Some d) /\
  (d < 5 * Second -> Dec w ≫= duration = Some 0).
Proof.
  intros Hd. split.
  - intros Hr.
    destruct (Inc_sets_duration w d Hd) as (w1 & -> & H1). simpl.
    destruct (Dec_sets_duration w1 _ H1) as (w2 & -> & H2). simpl.
    rewrite H2. f_equal.
    assert (wrap64 (d + 5 * Second) = d + 5 * Second) as ->.
    { apply wrap64_id. unfold int64, MinInt64, MaxInt64, Second, Millisecond, Nanosecond in *. lia. }
    destruct (Z.ltb_spec (5 * Second) (d + 5 * Second)) as [Hlt | Hge].
    + replace (d + 5 * Second - 5 * Second) with d by lia.
      apply wrap64_id. unfold int64, MinInt64, MaxInt64, Second, Millisecond, Nanosecond in *. lia.
    + lia.
  - intros Hlt.
    destruct (Dec_sets_duration w d Hd) as (w1 & -> & H1). simpl.
    rewrite H1. f_equal.
    destruct (Z.ltb_spec (5 * Second) d); [lia | reflexivity].
Qed.

Lemma Inc_Dec_duration_witness :
  (Inc (NewTimerManager 0 (100 * Millisecond)) ≫= Dec) ≫= duration
    = Some (100 * Millisecond) /\
  Dec (NewTimerManager 0 (3 * Second)) ≫= duration = Some 0.
Proof.
  split.
  - apply (Inc_Dec_duration (NewTimerManager 0 (100 * Millisecond))).
    + reflexivity.
    + vm_compute. split; discriminate.
  - apply (Inc_Dec_duration (NewTimerManager 0 (3 * Second)) (3 * Second)).
    + reflexivity.
    + reflexivity.
Defined.

(** C5 without the amendment fails at both ends of the range of
    [time.Duration]: from the largest duration [Inc()] wraps around to a
    negative value, which [Dec()] replaces by zero; and a negative duration
    plus the step stays within the step, so [Dec()] replaces it by zero
    too. *)
Lemma Inc_Dec_not_identity :
  (Inc (NewTimerManager 0 MaxInt64) ≫= Dec) ≫= duration = Some 0 /\
  duration (NewTimerManager 0 MaxInt64) = Some MaxInt64 /\
  (Inc (NewTimerManager 0 (-1)) ≫= Dec) ≫= duration = Some 0 /\
  duration (NewTimerManager 0 (-1)) = Some (-1).
Proof. vm_compute. repeat split. Qed.

(** ** Totality: no method of a coordinator panics *)

Lemma wf_deref (w : World) : wf w -> exists a p, deref w = Some (a, p).
Proof.
  intros [(a & Ha & Hlt) _ _].
  destruct (lookup_lt_is_Some_2 (timers w) a Hlt) as [p Hp].
  exists a, p. now apply deref_Some.
Qed.

Lemma wf_NewTimerManager (now d : Z) : wf (NewTimerManager now d).
Proof.
  split; simpl.
  - exists 0%nat. split; [reflexivity | lia].
  - lia.
  - intros [| a] p; simpl.
    + intros [= <-] [r Hr]. discriminate.
    + intros H. discriminate.
Qed.

(** Replacing the primitive at an address by one that keeps the invariant. *)
Lemma wf_update_timer (w : World) (a : nat) (p' : TimerData.t) :
  wf w ->
  (is_Some (TimerData.Timer p') -> TimerData.Handler p' = Some closeDoneCh) ->
  wf (setTimers (<[a := p']> (timers w)) w).
Proof.
  intros [(a0 & Ha0 & Hlt) Hd Hh] Hp'. split; simpl.
  - exists a0. rewrite length_insert. auto.
  - exact Hd.
  - intros b q Hq. destruct (decide (a = b)) as [-> | Hne].
    + destruct (decide (b < length (timers w))%nat) as [Hb | Hb].
      * rewrite list_lookup_insert_eq in Hq by exact Hb.
        injection Hq as <-. exact Hp'.
      * rewrite list_insert_ge in Hq by lia. now apply (Hh b).
    + rewrite list_lookup_insert_ne in Hq by exact Hne. now apply (Hh b).
Qed.

Lemma wf_withTimer (f : TimerData.t -> TimerData.t) (w : World) :
  wf w ->
  (forall p, (is_Some (TimerData.Timer p) -> TimerData.Handler p = Some closeDoneCh) ->
             is_Some (TimerData.Timer (f p)) -> TimerData.Handler (f p) = Some closeDoneCh) ->
  exists w', withTimer f w = Some w' /\ wf w'.
Proof.
  intros Hw Hf.
  destruct (wf_deref w Hw) as (a & p & Hap).
  eexists. split; [exact (withTimer_Some f w a p Hap) |].
  apply wf_update_timer; [exact Hw |].
  apply Hf. apply deref_Some in Hap as [_ Hp].
  now apply (wf_handler w Hw a).
Qed.

Lemma length_sendAll (v : Z) (ss : list nat) (cs : list Chan) :
  length (sendAll v ss cs) = length cs.
Proof.
  revert cs. induction ss as [| ch ss IH]; intros cs; simpl; [reflexivity |].
  rewrite IH. destruct (cs !! ch); [apply length_insert | reflexivity].
Qed.

Lemma wf_runHandler (h : HandlerFn) (w : World) :
  wf w -> exists w', runHandler h w = Some w' /\ wf w'.
Proof.
  intros Hw. destruct h. unfold runHandler.
  destruct (lookup_lt_is_Some_2 _ _ (wf_done w Hw)) as [c Hc].
  rewrite Hc. simpl. destruct (closed c).
  - eauto.
  - eexists. split; [reflexivity |].
    destruct Hw as [Ht Hd Hh]. split; simpl; auto.
    now rewrite length_insert.
Qed.

Lemma wf_exec (e : Event) (w : World) :
  wf w -> exists w', exec e w = Some w' /\ wf w'.
Proof.
  intros Hw. destruct e; simpl.
  - (* Subscribe *)
    eexists. split; [reflexivity |].
    destruct Hw as [Ht Hd Hh]. split; simpl; auto.
    rewrite length_app. lia.
  - (* Stop *)
    apply wf_withTimer; [exact Hw |].
    intros p Hp Hs. simpl in *. apply Hp.
    destruct (TimerData.Timer p); [eauto | destruct Hs; discriminate].
  - (* Reset *)
    destruct (wf_deref w Hw) as (a & p & Hap). unfold Reset. rewrite Hap. simpl.
    eexists. split; [reflexivity |].
    destruct Hw as [Ht Hd Hh]. split; simpl.
    + eexists. split; [reflexivity |]. rewrite length_app. simpl. lia.
    + rewrite length_app. simpl. lia.
    + intros b q Hq. apply lookup_app_Some in Hq as [Hq | [_ Hq]].
      * now apply (Hh b).
      * apply list_lookup_singleton_Some in Hq as [_ <-].
        intros [r Hr]. discriminate.
  - (* Start *)
    unfold Start. destruct (wf_timer w Hw) as (a & -> & _).
    apply wf_withTimer; [exact Hw |]. intros p _ _. reflexivity.
  - (* Inc *)
    apply wf_withTimer; [exact Hw |]. intros p Hp Hs. exact (Hp Hs).
  - (* Dec *)
    apply wf_withTimer; [exact Hw |]. intros p Hp Hs.
    destruct (5 * Second <? TimerData.Duration p); exact (Hp Hs).
  - (* Tick *)
    destruct (broadcasting w); [| eauto].
    destruct (wf_deref w Hw) as (a & p & Hap). unfold broadcastTick. rewrite Hap. simpl.
    eexists. split; [reflexivity |].
    destruct Hw as [Ht Hd Hh]. split; simpl; auto.
    now rewrite length_sendAll.
  - (* StopBroadcast *)
    eexists. split; [reflexivity |]. unfold broadcastStop.
    destruct (chans w !! TimerManager.stopCh (tm w)) as [c |]; [| exact Hw].
    destruct (closed c); [| exact Hw].
    destruct Hw as [Ht Hd Hh]. split; simpl; auto.
  - (* TimerFires *)
    unfold Fire. destruct (timers w !! a) as [p |] eqn:Hp; [| eauto].
    destruct (due (clock w) p); [| eauto].
    assert (wf (setTimers (<[a := complete (clock w) p]> (timers w)) w)) as Hw'.
    { apply wf_update_timer; [exact Hw |]. simpl. intros Hs.
      apply (wf_handler w Hw a p Hp).
      destruct (TimerData.Timer p); [eauto | destruct Hs; discriminate]. }
    destruct (TimerData.Handler p); [| eauto].
    now apply wf_runHandler.
  - (* Advance *)
    eexists. split; [reflexivity |].
    destruct Hw as [Ht Hd Hh]. split; simpl; auto.
Qed.

Lemma wf_run (es : list Event) (w : World) :
  wf w -> exists w', run es w = Some w' /\ wf w'.
Proof.
  revert w. induction es as [| e es IH]; intros w Hw; simpl.
  - eauto.
  - destruct (wf_exec e w Hw) as (w1 & -> & Hw1). simpl. now apply IH.
Qed.

Lemma run_wf (es : list Event) (w w' : World) :
  wf w -> run es w = Some w' -> wf w'.
Proof.
  intros Hw Hr. destruct (wf_run es w Hw) as (w1 & Hr1 & Hw1). congruence.
Qed.

(** ** Reset *)

(** What [Reset] builds, for any coordinator whose primitive exists. *)
Lemma Reset_Some (w : World) (a : nat) (p : TimerData.t) :
  deref w = Some (a, p) ->
  Reset w =
    Some (mkWorld (clock w)
            (timers w ++ [NewTimer (TimerData.Duration p)])
            (chans w ++ [mkChan 0 [] false])
            (TimerManager.mk (TimerManager.subs (tm w)) (Some (length (timers w)))
               (TimerData.Duration p) (TimerManager.updates (tm w))
               (TimerManager.stopCh (tm w)) (length (chans w)))
            (broadcasting w)).
Proof. intros H. unfold Reset. now rewrite H. Qed.

(** C2.  What [Reset()] does after any run of the coordinator: the new
    primitive gets the duration the replaced one holds at that moment, as
    adjusted by [Inc()] and [Dec()] since construction, and [lastValue] is
    set to it; [Done()] then returns a channel that is not the one returned
    before and is not closed.  The duration the coordinator was constructed
    with is not kept anywhere. *)
Theorem Reset_keeps_adjusted_duration (now d : Z) (es : list Event) (w : World) :
  run es (NewTimerManager now d) = Some w ->
  exists w', Reset w = Some w' /\
    duration w' = duration w /\
    Some (Snapshot w') = duration w /\
    Done w' <> Done w /\
    isClosed w' (Done w') = Some false.
Proof.
  intros Hr.
  pose proof (run_wf es _ w (wf_NewTimerManager now d) Hr) as Hw.
  destruct (wf_deref w Hw) as (a & p & Hap).
  eexists. split; [exact (Reset_Some w a p Hap) |].
  assert (duration w = Some (TimerData.Duration p)) as ->.
  { apply duration_Some. eauto. }
  repeat split.
  - apply duration_Some. exists (length (timers w)), (NewTimer (TimerData.Duration p)).
    split; [| reflexivity]. apply deref_Some. simpl. split; [reflexivity |].
    now rewrite lookup_app_r, Nat.sub_diag by lia.
  - unfold Done. simpl. pose proof (wf_done w Hw). lia.
  - unfold isClosed, Done. simpl.
    now rewrite lookup_app_r, Nat.sub_diag by lia.
Qed.

(** Constructed with 100ms, one [Inc()], then [Reset()]: the duration is
    5.1s. *)
Lemma Reset_keeps_adjusted_duration_witness :
  exists w w',
    run [CallInc] (NewTimerManager 0 (100 * Millisecond)) = Some w /\
    Reset w = Some w' /\
    duration w' = Some (100 * Millisecond + 5 * Second) /\
    duration w' <> Some (100 * Millisecond).
Proof.
  destruct (Inc_sets_duration (NewTimerManager 0 (100 * Millisecond)) (100 * Millisecond) eq_refl)
    as (w & Hinc & Hd).
  assert (run [CallInc] (NewTimerManager 0 (100 * Millisecond)) = Some w) as Hrun.
  { unfold run, exec. now rewrite Hinc. }
  destruct (Reset_keeps_adjusted_duration 0 (100 * Millisecond) [CallInc] w Hrun)
    as (w' & HR & Hd' & _).
  exists w, w'. split; [exact Hrun |]. split; [exact HR |].
  rewrite Hd', Hd. split; [reflexivity | discriminate].
Defined.

(** ** Snapshot *)

Lemma exec_keeps_lastValue (e : Event) (w w' : World) :
  keepsLastValue e = true -> exec e w = Some w' -> Snapshot w' = Snapshot w.
Proof.
  assert (forall f, withTimer f w = Some w' -> Snapshot w' = Snapshot w) as Hwith.
  { intros f. unfold withTimer. destruct (deref w) as [[a p] |]; simpl; [| discriminate].
    intros [= <-]. reflexivity. }
  destruct e; simpl; try discriminate; intros _.
  - intros [= <-]. reflexivity.
  - apply Hwith.
  - unfold Start. destruct (TimerManager.Timer (tm w)).
    + apply Hwith.
    + intros [= <-]. reflexivity.
  - apply Hwith.
  - apply Hwith.
  - intros [= <-]. unfold broadcastStop.
    destruct (chans w !! _) as [c |]; [| reflexivity].
    now destruct (closed c).
  - unfold Fire. destruct (timers w !! a) as [p |]; [| now intros [= <-]].
    destruct (due (clock w) p); [| now intros [= <-]].
    destruct (TimerData.Handler p) as [[] |]; [| now intros [= <-]].
    unfold runHandler. simpl.
    destruct (chans w !! _) as [c |]; simpl; [| discriminate].
    destruct (closed c); intros [= <-]; reflexivity.
  - intros [= <-]. reflexivity.
Qed.

(** C3.  From construction until the first turn of the broadcaster (or the
    first [Reset()]), whatever else happens, [Snapshot()] is the zero
    duration, and not the duration the coordinator was constructed with.
    [Reset] sets [lastValue] to the duration; [NewTimerManager] leaves it
    unset. *)
Theorem Snapshot_before_first_tick (now d : Z) (es : list Event) (w : World) :
  forallb keepsLastValue es = true ->
  run es (NewTimerManager now d) = Some w ->
  Snapshot w = 0.
Proof.
  change 0 with (Snapshot (NewTimerManager now d)).
  generalize (NewTimerManager now d) as w0.
  induction es as [| e es IH]; intros w0; simpl.
  - intros _ [= <-]. reflexivity.
  - intros [He Hes]%andb_true_iff.
    destruct (exec e w0) as [w1 |] eqn:Hex; simpl; [| discriminate].
    intros Hrun. rewrite (IH w1 Hes Hrun). now apply (exec_keeps_lastValue e).
Qed.

(** Constructed with 10s, nothing done yet. *)
Lemma Snapshot_before_first_tick_witness :
  Snapshot (NewTimerManager 0 (10 * Second)) = 0 /\
  duration (NewTimerManager 0 (10 * Second)) = Some (10 * Second).
Proof.
  split; [| reflexivity].
  apply (Snapshot_before_first_tick 0 (10 * Second) []); reflexivity.
Defined.

(** C9.  [Reset()] changes, of the coordinator, only [Timer], [lastValue]
    and [doneCh]; every object that existed keeps its state, one primitive
    and one channel are added.  In particular the replaced primitive is not
    stopped: if its countdown was armed it still is, and when that countdown
    fires, the handler it carries closes the done channel that [Reset()] has
    just created. *)
Theorem Reset_leaves_old_countdown_armed
    (now d : Z) (es : list Event) (w : World) (a : nat) (p : TimerData.t) :
  run es (NewTimerManager now d) = Some w ->
  deref w = Some (a, p) ->
  armed p = true ->
  exists w', Reset w = Some w' /\
    (* the coordinator: three fields change, the others do not *)
    TimerManager.subs (tm w') = TimerManager.subs (tm w) /\
    TimerManager.updates (tm w') = TimerManager.updates (tm w) /\
    TimerManager.stopCh (tm w') = TimerManager.stopCh (tm w) /\
    (* its surroundings: nothing that existed is touched *)
    clock w' = clock w /\ broadcasting w' = broadcasting w /\
    timers w' = (timers w ++ [NewTimer (TimerData.Duration p)])%list /\
    chans w' = (chans w ++ [mkChan 0 [] false])%list /\
    (* the replaced primitive is as it was, its countdown armed *)
    timers w' !! a = Some p /\
    TimerManager.Timer (tm w') <> Some a /\
    (* the new done channel is open, until that countdown fires *)
    isClosed w' (Done w') = Some false /\
    forall dt : N, due (clock w' + Z.of_N dt) p = true ->
      exists w2, run [Advance dt; TimerFires a] w' = Some w2 /\
        Done w2 = Done w' /\ isClosed w2 (Done w') = Some true.
Proof.
  intros Hr Hap Harmed.
  pose proof (run_wf es _ w (wf_NewTimerManager now d) Hr) as Hw.
  pose proof Hap as [Ha Hp]%deref_Some.
  pose proof (lookup_lt_Some _ _ _ Hp) as Hlt.
  pose proof (wf_done w Hw) as Hd.
  eexists. split; [exact (Reset_Some w a p Hap) |]. simpl.
  repeat split.
  - now rewrite lookup_app_l by exact Hlt.
  - intros [= E]. lia.
  - unfold isClosed, Done. simpl.
    now rewrite lookup_app_r, Nat.sub_diag by lia.
  - intros dt Hdue. unfold Fire. simpl.
    rewrite lookup_app_l by exact Hlt. rewrite Hp, Hdue.
    assert (TimerData.Handler p = Some closeDoneCh) as ->.
    { apply (wf_handler w Hw a p Hp). unfold armed in Harmed.
      destruct (TimerData.Timer p); [eauto | discriminate]. }
    simpl. rewrite lookup_app_r, Nat.sub_diag by lia. simpl.
    eexists. split; [reflexivity |]. split; [reflexivity |].
    unfold isClosed, Done. simpl.
    rewrite list_lookup_insert_eq by (rewrite length_app; simpl; lia).
    reflexivity.
Qed.

Lemma Reset_leaves_old_countdown_armed_witness :
  let w := mkWorld 0
    [TimerData.mk (Some (mkRtTimer (200 * Millisecond) true)) (200 * Millisecond)
       (1 * Minute) false 0 0 (Some closeDoneCh)]
    [mkChan 0 [] false; mkChan 0 [] false; mkChan 0 [] false]
    (TimerManager.mk [] (Some 0%nat) 0 0%nat 1%nat 2%nat) true in
  run [CallStart] (NewTimerManager 0 (200 * Millisecond)) = Some w /\
  exists w', Reset w = Some w' /\
    armed <$> timers w' !! 0%nat = Some true /\
    exists w2, run [Advance 250000000; TimerFires 0] w' = Some w2 /\
      isClosed w2 (Done w') = Some true.
Proof.
  intros w. split; [reflexivity |].
  destruct (Reset_leaves_old_countdown_armed 0 (200 * Millisecond) [CallStart] w 0%nat
              (TimerData.mk (Some (mkRtTimer (200 * Millisecond) true))
                 (200 * Millisecond) (1 * Minute) false 0 0 (Some closeDoneCh)))
    as (w' & HR & _ & _ & _ & _ & _ & _ & _ & Hp & _ & _ & Hfire).
  - reflexivity.
  - reflexivity.
  - reflexivity.
  - exists w'. split; [exact HR |]. split; [now rewrite Hp |].
    destruct (Hfire 250000000%N) as (w2 & H2 & _ & Hc).
    + assert (clock w' = 0) as ->.
      { subst w. injection HR as <-. reflexivity. }
      reflexivity.
    + exists w2. split; [exact H2 | exact Hc].
Defined.

End TimerManagerFacts.

(** * Properties of the polybar package *)

Section WrapperFacts.

Import polybar.
Local Open Scope string_scope.
Local Open Scope Z_scope.

Context {Callback : Type}.
Variable call : Callback -> State Callback -> option (State Callback).

(** C10.  With no coordinator set (the pointer [timerManager] is nil), the
    four control wrappers return normally and leave every package variable
    as it was, [Snapshot] returns [0] and [Subscribe] returns the nil
    channel. *)
Theorem wrappers_without_manager (s : State Callback) :
  getTimerManager s = None ->
  TimerStart s = Some s /\ TimerStop s = Some s /\
  TimerInc s = Some s /\ TimerDec s = Some s /\
  Snapshot s = 0 /\ Subscribe s = (None, s).
Proof.
  intros H.
  unfold TimerStart, TimerStop, TimerInc, TimerDec, onManager, Snapshot, Subscribe.
  rewrite H. repeat split.
Qed.

(** The coordinator a state points to after a step that may have panicked. *)
Lemma onManager_manager (M : focotimer.World -> option focotimer.World) (s : State Callback) :
  timerManager <$> onManager M s =
  match timerManager s with
  | Some tm => Some <$> M tm
  | None => Some None
  end.
Proof.
  unfold onManager, getTimerManager.
  destruct (timerManager s) as [tm |] eqn:E; simpl; [| now rewrite E].
  now destruct (M tm).
Qed.

(** The switch in the body of the loop, for one token. *)
Lemma handle_cmd_switch (s : State Callback) :
  let received cmd := logPrintf (LogReceived cmd) s in
  let through M := match timerManager s with
                   | Some tm => Some <$> M tm
                   | None => Some None
                   end in
  timerManager <$> handle_cmd call "start" s = through focotimer.Start /\
  timerManager <$> handle_cmd call "stop" s = through focotimer.Stop /\
  timerManager <$> handle_cmd call "inc" s = through focotimer.Inc /\
  timerManager <$> handle_cmd call "dec" s = through focotimer.Dec /\
  handle_cmd call "gui" s =
    match guiToggleCallback s with
    | Some cb => call cb (received "gui")
    | None => Some (received "gui")
    end /\
  forall cmd,
    cmd <> "start" -> cmd <> "stop" -> cmd <> "inc" -> cmd <> "dec" -> cmd <> "gui" ->
    exists s', handle_cmd call cmd s = Some s' /\
      timerManager s' = timerManager s /\
      guiToggleCallback s' = guiToggleCallback s /\
      fifoPipePath s' = fifoPipePath s.
Proof.
  cbv zeta. repeat split.
  - exact (onManager_manager focotimer.Start _).
  - exact (onManager_manager focotimer.Stop _).
  - exact (onManager_manager focotimer.Inc _).
  - exact (onManager_manager focotimer.Dec _).
  - intros cmd H1 H2 H3 H4 H5. unfold handle_cmd.
    apply String.eqb_neq in H1, H2, H3, H4, H5.
    rewrite H1, H2, H3, H4, H5.
    eexists. split; [reflexivity |]. repeat split.
Qed.

(** The scanner loop takes the lines one after the other. *)
Lemma handle_cmds_scan_app (l1 l2 : list string) (s : State Callback) :
  handle_cmds_scan call (l1 ++ l2) s
    = handle_cmds_scan call l1 s ≫= handle_cmds_scan call l2.
Proof.
  revert s. induction l1 as [| cmd l1 IH]; intros s; simpl; [reflexivity |].
  destruct (handle_cmd call cmd s) as [s' |]; simpl; [apply IH | reflexivity].
Qed.

Lemma handle_cmds_scan_line (pre : list string) (cmd : string) (s s1 : State Callback) :
  handle_cmds_scan call pre s = Some s1 ->
  handle_cmds_scan call (pre ++ [cmd]) s = handle_cmd call cmd s1.
Proof.
  intros Hpre. rewrite handle_cmds_scan_app, Hpre. simpl.
  now destruct (handle_cmd call cmd s1).
Qed.

(** C8.  The command loop, line by line.  Let the loop have read the lines
    [pre] and be in state [s1].  Whatever line comes next, the loop
    dispatches it and goes on with the lines after it from the state the
    line left (a panic in a line ends the loop).  If the line is [start] the
    coordinator that is set undergoes exactly its [Start()], and likewise
    [stop], [inc] and [dec] with [Stop()], [Inc()] and [Dec()]; [gui] calls
    the registered callback when there is one and does nothing otherwise;
    every other line returns normally and leaves the coordinator, the
    callback and the pipe path as they were. *)
Theorem handle_cmds_scan_dispatch (pre post : list string) (s s1 : State Callback) :
  handle_cmds_scan call pre s = Some s1 ->
  let line cmd := handle_cmds_scan call (pre ++ [cmd]) s in
  let received cmd := logPrintf (LogReceived cmd) s1 in
  let through M := match timerManager s1 with
                   | Some tm => Some <$> M tm
                   | None => Some None
                   end in
  (forall cmd, handle_cmds_scan call (pre ++ cmd :: post) s
                 = line cmd ≫= handle_cmds_scan call post) /\
  timerManager <$> line "start" = through focotimer.Start /\
  timerManager <$> line "stop" = through focotimer.Stop /\
  timerManager <$> line "inc" = through focotimer.Inc /\
  timerManager <$> line "dec" = through focotimer.Dec /\
  line "gui" =
    match guiToggleCallback s1 with
    | Some cb => call cb (received "gui")
    | None => Some (received "gui")
    end /\
  forall cmd,
    cmd <> "start" -> cmd <> "stop" -> cmd <> "inc" -> cmd <> "dec" -> cmd <> "gui" ->
    exists s', line cmd = Some s' /\
      timerManager s' = timerManager s1 /\
      guiToggleCallback s' = guiToggleCallback s1 /\
      fifoPipePath s' = fifoPipePath s1.
Proof.
  intros Hpre. cbv zeta.
  destruct (handle_cmd_switch s1) as (H1 & H2 & H3 & H4 & H5 & H6).
  rewrite !(handle_cmds_scan_line pre _ s s1 Hpre).
  split.
  { intros cmd. rewrite (handle_cmds_scan_line pre cmd s s1 Hpre).
    rewrite handle_cmds_scan_app, Hpre. reflexivity. }
  split; [exact H1 |]. split; [exact H2 |]. split; [exact H3 |].
  split; [exact H4 |]. split; [exact H5 |].
  intros cmd N1 N2 N3 N4 N5.
  rewrite (handle_cmds_scan_line pre cmd s s1 Hpre). now apply H6.
Qed.

End WrapperFacts.

Lemma wrappers_without_manager_witness :
  let s := polybar.mkState "/tmp/focotimer.pipe.4242" (None : option unit) None [] in
  polybar.TimerStart s = Some s /\ polybar.Snapshot s = 0%Z /\
  polybar.Subscribe s = (None, s).
Proof.
  intros s.
  destruct (wrappers_without_manager s eq_refl) as (H1 & _ & _ & _ & H5 & H6).
  repeat split; assumption.
Defined.

Lemma handle_cmds_scan_dispatch_witness :
  let tm := focotimer.NewTimerManager 1000 (100 * focotimer.Millisecond) in
  let s := polybar.mkState "/tmp/focotimer.pipe.4242" (Some tt) (Some tm) [] in
  let call := fun (_ : unit) (s : polybar.State unit) =>
                Some (polybar.logPrintf (polybar.LogUnknown "toggled") s) in
  exists s1 tm1,
    polybar.handle_cmds_scan call ["inc"; "bogus"]%string s = Some s1 /\
    polybar.timerManager s1 = Some tm1 /\
    focotimer.Inc tm = Some tm1 /\
    polybar.handle_cmds_scan call ["inc"; "bogus"; "start"; "gui"; "dec"]%string s
      = polybar.handle_cmds_scan call ["inc"; "bogus"; "start"]%string s
          ≫= polybar.handle_cmds_scan call ["gui"; "dec"]%string /\
    polybar.timerManager <$> polybar.handle_cmds_scan call ["inc"; "bogus"; "start"]%string s
      = Some <$> focotimer.Start tm1.
Proof.
  intros tm s call. eexists. eexists.
  split; [vm_compute; reflexivity |].
  split; [reflexivity |].
  split; [vm_compute; reflexivity |].
  destruct (handle_cmds_scan_dispatch call ["inc"; "bogus"]%string ["gui"; "dec"]%string
              s _ eq_refl) as (Hgo & Hstart & _).
  split; [exact (Hgo "start"%string) | exact Hstart].
Defined.

(** ** Allocation of the pipe *)

Section AllocationFacts.

Import polybar allocation.
Local Open Scope string_scope.

Variable os : OS.
Variable base : string.
Variable mode : Z.

Local Abbreviation cand := (nth_candidate os base).
Local Abbreviation from n left := (mkfifoFrom os base mode (Getpid os) (Z.of_nat n) left).

(** The test [fi.Mode() & os.ModeNamedPipe != 0] reads bit 25 of the mode. *)
Lemma named_pipe_bit (fi : Z) :
  negb (Z.land fi ModeNamedPipe =? 0)%Z = Z.testbit fi 25.
Proof.
  change ModeNamedPipe with (2 ^ 25)%Z.
  destruct (Z.testbit fi 25) eqn:E.
  - destruct (Z.eqb_spec (Z.land fi (2 ^ 25)) 0) as [H0 | _]; [| reflexivity].
    assert (Z.testbit (Z.land fi (2 ^ 25)) 25 = true) as Hb.
    { rewrite Z.land_spec, E. reflexivity. }
    rewrite H0 in Hb. discriminate.
  - assert (Z.land fi (2 ^ 25) = 0)%Z as ->; [| reflexivity].
    apply Z.bits_inj'. intros n Hn.
    rewrite Z.land_spec, Z.bits_0, Z.pow2_bits_eqb by lia.
    destruct (Z.eqb_spec 25 n) as [<- | _].
    + now rewrite E.
    + apply andb_false_r.
Qed.

Lemma from_created (n left : nat) :
  created os mode (cand n) = true -> from n (S left) = Allocated (cand n).
Proof.
  unfold created, nth_candidate. cbn [mkfifoFrom].
  now destruct (Mkfifo os _ _).
Qed.

Lemma from_reused (n left : nat) :
  existsAlready os mode (cand n) = true -> reusable os (cand n) = true ->
  from n (S left) = Allocated (cand n).
Proof.
  cbn [mkfifoFrom].
  unfold existsAlready, reusable, isNamedPipe, nth_candidate, canUseFifo.
  destruct (Mkfifo os _ _) as [e |]; [| discriminate].
  intros ->. destruct (Lstat os _) as [fi |]; [| discriminate].
  rewrite named_pipe_bit. intros [-> ->]%andb_true_iff. reflexivity.
Qed.

Lemma from_skipped (n left : nat) :
  skipped os mode (cand n) = true -> from n (S left) = from (S n) left.
Proof.
  cbn [mkfifoFrom].
  unfold skipped, existsAlready, reusable, isNamedPipe, nth_candidate, canUseFifo.
  replace (Z.of_nat n + 1)%Z with (Z.of_nat (S n)) by lia.
  destruct (Mkfifo os _ _) as [e |]; [| discriminate].
  intros [-> Hr]%andb_true_iff. apply negb_true_iff in Hr.
  destruct (Lstat os _) as [fi |]; [| reflexivity].
  rewrite named_pipe_bit.
  destruct (Z.testbit fi 25); [| reflexivity].
  simpl in Hr. now rewrite Hr.
Qed.

Lemma from_failed (n left : nat) (errno : Z) :
  Mkfifo os (cand n) (Perm mode) = Some errno -> isExist errno = false ->
  from n (S left) = MkfifoFailed (cand n) errno.
Proof.
  unfold nth_candidate. cbn [mkfifoFrom]. intros -> ->. reflexivity.
Qed.

(** Each candidate is created, reused, passed over, or fails the call. *)
Lemma candidate_cases (path : string) :
  created os mode path = true \/
  (existsAlready os mode path = true /\ reusable os path = true) \/
  skipped os mode path = true \/
  (exists errno, Mkfifo os path (Perm mode) = Some errno /\ isExist errno = false).
Proof.
  unfold created, skipped, existsAlready.
  destruct (Mkfifo os path (Perm mode)) as [e |]; [| auto].
  destruct (isExist e) eqn:He; [| eauto 6].
  destruct (reusable os path); auto.
Qed.

Lemma from_spec (left n : nat) :
  match from n left with
  | Allocated path =>
      exists k, (k < left)%nat /\ path = cand (n + k) /\
        (forall j, (j < k)%nat -> skipped os mode (cand (n + j)) = true) /\
        (created os mode path = true \/
         existsAlready os mode path = true /\ reusable os path = true)
  | MkfifoFailed path errno =>
      exists k, (k < left)%nat /\ path = cand (n + k) /\
        (forall j, (j < k)%nat -> skipped os mode (cand (n + j)) = true) /\
        Mkfifo os path (Perm mode) = Some errno /\ isExist errno = false
  | Exhausted b =>
      b = base /\
      forall j, (j < left)%nat -> skipped os mode (cand (n + j)) = true
  end.
Proof.
  revert n. induction left as [| left IH]; intros n.
  - simpl. split; [reflexivity | lia].
  - destruct (candidate_cases (cand n)) as [Hc | [[He Hr] | [Hs | (e & Hm & He)]]].
    + rewrite from_created by exact Hc.
      exists 0%nat. rewrite Nat.add_0_r. repeat split; [lia | lia | auto].
    + rewrite from_reused by assumption.
      exists 0%nat. rewrite Nat.add_0_r. repeat split; [lia | lia | auto].
    + rewrite from_skipped by exact Hs.
      specialize (IH (S n)).
      assert (forall k j, (j < S k)%nat ->
                (forall j', (j' < k)%nat -> skipped os mode (cand (S n + j')) = true) ->
                skipped os mode (cand (n + j)) = true) as Hshift.
      { intros k [| j] Hj Hall.
        - now rewrite Nat.add_0_r.
        - replace (n + S j)%nat with (S n + j)%nat by lia. apply Hall. lia. }
      destruct (from (S n) left) as [path | path e | b].
      * destruct IH as (k & Hk & -> & Hall & Hfin).
        exists (S k). repeat split; [lia | f_equal; lia | | exact Hfin].
        intros j Hj. now apply (Hshift k).
      * destruct IH as (k & Hk & -> & Hall & Hfin).
        exists (S k). repeat split; [lia | f_equal; lia | | apply Hfin | apply Hfin].
        intros j Hj. now apply (Hshift k).
      * destruct IH as [-> Hall]. split; [reflexivity |].
        intros j Hj. now apply (Hshift left).
    + rewrite (from_failed n left e) by assumption.
      exists 0%nat. rewrite Nat.add_0_r. repeat split; [lia | lia | auto | auto].
Qed.

Lemma from_skip_prefix (i : nat) : forall n left,
  (forall j, (j < i)%nat -> skipped os mode (cand (n + j)) = true) ->
  from n (i + left) = from (n + i) left.
Proof.
  induction i as [| i IH]; intros n left Hall.
  - now rewrite Nat.add_0_r.
  - simpl Nat.add. rewrite from_skipped.
    + rewrite IH.
      * f_equal. lia.
      * intros j Hj. replace (S n + j)%nat with (n + S j)%nat by lia.
        apply Hall. lia.
    + specialize (Hall 0%nat). rewrite Nat.add_0_r in Hall. apply Hall. lia.
Qed.

Lemma created_not_existsAlready (path : string) :
  existsAlready os mode path = true -> created os mode path = false.
Proof.
  unfold existsAlready, created. now destruct (Mkfifo os path (Perm mode)).
Qed.

(** C6.  [mkfifoUnique(base)] tries [base.<pid>], then [base.<pid>.<n>] for
    [n = 1, 2, 3, ...], in that order and at most 1000 paths in all.  It
    returns the first path it can create or reuse, every path before it
    having been passed over; it returns the exhaustion error exactly when all
    1000 are passed over.  A candidate that is reached and already exists is
    returned exactly when it is a named pipe on which a non-blocking open for
    writing succeeds; otherwise the search goes on with the next one. *)
Theorem mkfifoUnique_candidates :
  cand 0 = base ++ "." ++ itoa (Getpid os) /\
  (forall n, (1 <= n)%nat ->
     cand n = base ++ "." ++ itoa (Getpid os) ++ "." ++ itoa (Z.of_nat n)) /\
  match mkfifoUnique os base mode with
  | Allocated path =>
      exists k, (k < 1000)%nat /\ path = cand k /\
        (forall j, (j < k)%nat -> skipped os mode (cand j) = true) /\
        (created os mode path = true \/
         existsAlready os mode path = true /\ reusable os path = true)
  | MkfifoFailed path errno =>
      exists k, (k < 1000)%nat /\ path = cand k /\
        (forall j, (j < k)%nat -> skipped os mode (cand j) = true) /\
        Mkfifo os path (Perm mode) = Some errno /\ isExist errno = false
  | Exhausted b =>
      b = base /\
      forall j, (j < 1000)%nat -> skipped os mode (cand j) = true
  end /\
  ((forall j, (j < 1000)%nat -> skipped os mode (cand j) = true) ->
   mkfifoUnique os base mode = Exhausted base) /\
  forall i, (i < 1000)%nat ->
    (forall j, (j < i)%nat -> skipped os mode (cand j) = true) ->
    existsAlready os mode (cand i) = true ->
    (mkfifoUnique os base mode = Allocated (cand i) <-> reusable os (cand i) = true) /\
    (reusable os (cand i) = false ->
     mkfifoUnique os base mode = from (S i) (999 - i)).
Proof.
  split; [reflexivity |]. split.
  { intros n Hn. unfold nth_candidate, candidate.
    destruct (Z.eqb_spec (Z.of_nat n) 0); [lia | reflexivity]. }
  split; [exact (from_spec 1000 0) |]. split.
  { intros Hall. unfold mkfifoUnique.
    change (from 0 (1000 + 0) = Exhausted base).
    rewrite from_skip_prefix by exact Hall. reflexivity. }
  intros i Hi Hall He.
  assert (mkfifoUnique os base mode = from i (S (999 - i))) as Hreach.
  { unfold mkfifoUnique. change (from 0 1000 = from i (S (999 - i))).
    replace 1000%nat with (i + S (999 - i))%nat at 1 by lia.
    now rewrite from_skip_prefix. }
  assert (reusable os (cand i) = false ->
          mkfifoUnique os base mode = from (S i) (999 - i)) as Hskip.
  { intros Hr. rewrite Hreach. apply from_skipped.
    unfold skipped. now rewrite He, Hr. }
  split; [| exact Hskip]. split.
  - intros Hres. destruct (reusable os (cand i)) eqn:Hr; [reflexivity | exfalso].
    rewrite (Hskip eq_refl) in Hres.
    pose proof (from_spec (999 - i) (S i)) as Hspec. rewrite Hres in Hspec.
    destruct Hspec as (_ & _ & _ & _ & [Hc | [_ Hr']]).
    + rewrite created_not_existsAlready in Hc by exact He. discriminate.
    + congruence.
  - intros Hr. rewrite Hreach. now apply from_reused.
Qed.

End AllocationFacts.

Lemma mkfifoUnique_candidates_witness :
  let os := polybar.mkOS 4242
    (fun path _ => if String.eqb path "/tmp/focotimer.pipe.4242"
                   then Some polybar.EEXIST else None)
    (fun path => Some (Z.lor polybar.ModeNamedPipe 438))
    (fun path => false) in
  polybar.mkfifoUnique os "/tmp/focotimer.pipe" 438
    = polybar.Allocated "/tmp/focotimer.pipe.4242.1".
Proof.
  intros os.
  destruct (mkfifoUnique_candidates os "/tmp/focotimer.pipe" 438)
    as (_ & _ & _ & _ & H).
  destruct (H 0%nat) as [_ Hskip].
  - lia.
  - intros j Hj. lia.
  - reflexivity.
  - rewrite Hskip by reflexivity. reflexivity.
Defined.

(** ** Shutdown *)

Section ShutdownFacts.

Import polybar shutdown dispatch.







(** *** Every caller can return *)







(** *** A loop waiting in the open of a removed pipe *)







(** *** After [stopOnce], with the loop outside the open *)








End ShutdownFacts.


(** * Further properties of the countdown primitive *)

Section TimerDataBounds.

Import focotimer.
Local Open Scope Z_scope.

Lemma Since_range (now t : Z) : t <= now -> 0 <= Since now t <= MaxInt64.
Proof. unfold Since, MinInt64, MaxInt64. lia. Qed.

Lemma Since_exact (now t : Z) : 0 <= now - t <= MaxInt64 -> Since now t = now - t.
Proof. unfold Since, MinInt64, MaxInt64. lia. Qed.

Lemma Since_mono (now now' t : Z) : now <= now' -> Since now t <= Since now' t.
Proof. unfold Since. lia. Qed.

Lemma Elapsed_range (now : Z) (t : TimerData.t) :
  TimerData.StartedAt t = 0 \/ TimerData.StartedAt t <= now ->
  0 <= Elapsed now t <= MaxInt64.
Proof.
  intros H. unfold Elapsed, IsZero.
  destruct (Z.eqb_spec (TimerData.StartedAt t) 0) as [E | E]; simpl.
  - unfold MaxInt64. lia.
  - destruct (TimerData.IsComplete t); [unfold MaxInt64; lia |].
    apply Since_range. lia.
Qed.

Lemma Elapsed_mono (now now' : Z) (t : TimerData.t) :
  now <= now' -> Elapsed now t <= Elapsed now' t.
Proof.
  intros H. unfold Elapsed.
  destruct (IsZero (TimerData.StartedAt t) || TimerData.IsComplete t); [lia |].
  now apply Since_mono.
Qed.

(** [Remaining] is the duration less the elapsed time, floored at zero, as
    long as the elapsed time is not negative. *)
Lemma Remaining_floor (now : Z) (t : TimerData.t) :
  int64 (TimerData.Duration t) ->
  0 <= Elapsed now t ->
  Remaining now t = Z.max 0 (TimerData.Duration t - Elapsed now t).
Proof.
  intros Hd He. unfold Remaining.
  destruct (Z.ltb_spec (TimerData.Duration t) (Elapsed now t)) as [Hlt | Hge].
  - lia.
  - rewrite wrap64_id; [lia |].
    unfold int64, MinInt64, MaxInt64 in *. lia.
Qed.

(** X1.  Read at any instant not before its start, [Remaining()] lies
    between zero and the duration (between zero and zero for a negative
    duration). *)
Theorem Remaining_bounds (now : Z) (t : TimerData.t) :
  int64 (TimerData.Duration t) ->
  TimerData.StartedAt t = 0 \/ TimerData.StartedAt t <= now ->
  0 <= Remaining now t <= Z.max 0 (TimerData.Duration t).
Proof.
  intros Hd Hs. pose proof (Elapsed_range now t Hs) as He.
  rewrite Remaining_floor by (auto; lia). lia.
Qed.

Lemma Remaining_bounds_witness :
  0 <= Remaining 750 (StartTimer 500 (NewTimer (200 * Millisecond)))
    <= 200 * Millisecond.
Proof.
  apply (Remaining_bounds 750 (StartTimer 500 (NewTimer (200 * Millisecond)))).
  - vm_compute. split; discriminate.
  - right. vm_compute. discriminate.
Defined.

(** X2.  While a countdown runs (started at a non-zero instant, not
    complete), [Elapsed()] is the time since the start and [Remaining()] is
    the duration less that time, floored at zero. *)
Theorem Remaining_while_running (now : Z) (t : TimerData.t) :
  int64 (TimerData.Duration t) ->
  TimerData.StartedAt t <> 0 ->
  TimerData.IsComplete t = false ->
  0 <= now - TimerData.StartedAt t <= MaxInt64 ->
  Elapsed now t = now - TimerData.StartedAt t /\
  Remaining now t =
    Z.max 0 (TimerData.Duration t - (now - TimerData.StartedAt t)).
Proof.
  intros Hd Hz Hc Hr.
  assert (Elapsed now t = now - TimerData.StartedAt t) as He.
  { unfold Elapsed, IsZero. rewrite Hc.
    destruct (Z.eqb_spec (TimerData.StartedAt t) 0); [contradiction |].
    simpl. now apply Since_exact. }
  split; [exact He |].
  rewrite Remaining_floor by (auto; lia). now rewrite He.
Qed.

Lemma Remaining_while_running_witness :
  Remaining 550 (StartTimer 500 (NewTimer (200 * Millisecond)))
    = 200 * Millisecond - 50.
Proof.
  destruct (Remaining_while_running 550 (StartTimer 500 (NewTimer (200 * Millisecond))))
    as [_ H].
  - vm_compute. split; discriminate.
  - discriminate.
  - reflexivity.
  - vm_compute. split; discriminate.
  - rewrite H. reflexivity.
Defined.

(** X3.  [Remaining()] never grows as time passes: read later, it is at most
    what it was. *)
Theorem Remaining_never_grows (now now' : Z) (t : TimerData.t) :
  int64 (TimerData.Duration t) ->
  TimerData.StartedAt t = 0 \/ TimerData.StartedAt t <= now ->
  now <= now' ->
  Remaining now' t <= Remaining now t.
Proof.
  intros Hd Hs Hle.
  pose proof (Elapsed_range now t Hs) as He.
  pose proof (Elapsed_mono now now' t Hle) as Hm.
  rewrite !Remaining_floor by (auto; lia). lia.
Qed.

Lemma Remaining_never_grows_witness :
  Remaining 900 (StartTimer 500 (NewTimer (200 * Millisecond)))
    <= Remaining 600 (StartTimer 500 (NewTimer (200 * Millisecond))).
Proof.
  apply Remaining_never_grows.
  - vm_compute. split; discriminate.
  - right. vm_compute. discriminate.
  - lia.
Defined.

(** X4.  [StopTimer()] only cancels the pending fire: it is idempotent, does
    nothing to a primitive that was never started, leaves the primitive not
    due at any instant, and does not stop the clock of the countdown:
    [Elapsed()] and [Remaining()] read as if it had not been called. *)
Theorem StopTimer_only_disarms (t : TimerData.t) :
  StopTimer (StopTimer t) = StopTimer t /\
  (TimerData.Timer t = None -> StopTimer t = t) /\
  forall now,
    due now (StopTimer t) = false /\
    Elapsed now (StopTimer t) = Elapsed now t /\
    Remaining now (StopTimer t) = Remaining now t.
Proof.
  destruct t as [[r |] d b c s e h]; repeat split; try reflexivity.
  intros [=].
Qed.

Lemma StopTimer_only_disarms_witness :
  due 900 (StartTimer 500 (NewTimer 200)) = true /\
  due 900 (StopTimer (StartTimer 500 (NewTimer 200))) = false /\
  StopTimer (NewTimer 200) = NewTimer 200.
Proof.
  destruct (StopTimer_only_disarms (StartTimer 500 (NewTimer 200))) as (_ & _ & H).
  destruct (StopTimer_only_disarms (NewTimer 200)) as (_ & Hn & _).
  split; [reflexivity |]. split; [apply (H 900) | now apply Hn].
Defined.

End TimerDataBounds.

(** * Further properties of the timer coordinator *)

Section TimerManagerLifetime.

Import focotimer coordinator lifetime.
Local Open Scope Z_scope.

(** ** What each step can have done *)

Lemma withTimer_inv (f : TimerData.t -> TimerData.t) (w w' : World) :
  withTimer f w = Some w' ->
  exists a p, deref w = Some (a, p) /\
    w' = setTimers (<[a := f p]> (timers w)) w.
Proof.
  unfold withTimer. destruct (deref w) as [[a p] |]; simpl; [| discriminate].
  intros [= <-]. eauto.
Qed.

Lemma Reset_inv (w w' : World) :
  Reset w = Some w' ->
  exists a p, deref w = Some (a, p) /\
    w' = mkWorld (clock w)
           (timers w ++ [NewTimer (TimerData.Duration p)])
           (chans w ++ [mkChan 0 [] false])
           (TimerManager.mk (TimerManager.subs (tm w)) (Some (length (timers w)))
              (TimerData.Duration p) (TimerManager.updates (tm w))
              (TimerManager.stopCh (tm w)) (length (chans w)))
           (broadcasting w).
Proof.
  unfold Reset. destruct (deref w) as [[a p] |]; simpl; [| discriminate].
  intros [= <-]. eauto.
Qed.

Lemma broadcastTick_inv (w w' : World) :
  broadcastTick w = Some w' ->
  exists a p, deref w = Some (a, p) /\
    w' = mkWorld (clock w) (timers w)
           (sendAll (Remaining (clock w) p) (TimerManager.subs (tm w)) (chans w))
           (TimerManager.mk (TimerManager.subs (tm w)) (TimerManager.Timer (tm w))
              (Remaining (clock w) p) (TimerManager.updates (tm w))
              (TimerManager.stopCh (tm w)) (TimerManager.doneCh (tm w)))
           (broadcasting w).
Proof.
  unfold broadcastTick. destruct (deref w) as [[a p] |]; simpl; [| discriminate].
  intros [= <-]. eauto.
Qed.

(** A fire does nothing, or completes the primitive and then closes the done
    channel unless it is closed already. *)
Lemma Fire_inv (a : nat) (w w' : World) :
  Fire a w = Some w' ->
  w' = w \/
  exists p, timers w !! a = Some p /\ due (clock w) p = true /\
    (w' = setTimers (<[a := complete (clock w) p]> (timers w)) w \/
     exists c, chans w !! TimerManager.doneCh (tm w) = Some c /\ closed c = false /\
       w' = setChans (<[TimerManager.doneCh (tm w) := closeChan c]> (chans w))
              (setTimers (<[a := complete (clock w) p]> (timers w)) w)).
Proof.
  unfold Fire. destruct (timers w !! a) as [p |] eqn:Hp; [| intros [= <-]; auto].
  destruct (due (clock w) p) eqn:Hdue; [| intros [= <-]; auto].
  intros H. right. exists p. split; [reflexivity |]. split; [exact Hdue |].
  destruct (TimerData.Handler p) as [[] |]; [| injection H as <-; auto].
  unfold runHandler in H. simpl in H.
  destruct (chans w !! TimerManager.doneCh (tm w)) as [c |]; simpl in H; [| discriminate].
  destruct (closed c) eqn:Hc; injection H as <-; eauto.
Qed.

(** An invariant of single steps is an invariant of runs. *)
Lemma run_invariant (I : World -> Prop) :
  (forall e w w', wf w -> I w -> exec e w = Some w' -> I w') ->
  forall es w w', wf w -> I w -> run es w = Some w' -> I w'.
Proof.
  intros Hstep es. induction es as [| e es IH]; intros w w' Hw HI; simpl.
  - intros [= <-]. exact HI.
  - destruct (wf_exec e w Hw) as (w1 & He & Hw1). rewrite He. simpl.
    apply IH; [exact Hw1 |]. now apply (Hstep e w).
Qed.

(** ** Sends *)

Lemma wrap64_range (z : Z) : int64 (wrap64 z).
Proof.
  unfold int64, MinInt64, MaxInt64, wrap64.
  replace (2 ^ 64) with 18446744073709551616 by reflexivity.
  replace (2 ^ 63) with 9223372036854775808 by reflexivity.
  pose proof (Z.mod_pos_bound (z + 9223372036854775808) 18446744073709551616).
  lia.
Qed.

Lemma sentFrom_refl (v : Z) (c : Chan) : sentFrom v c c.
Proof. unfold sentFrom. auto. Qed.

Lemma sentFrom_trans (v : Z) (c1 c2 c3 : Chan) :
  sentFrom v c1 c2 -> sentFrom v c2 c3 -> sentFrom v c1 c3.
Proof.
  unfold sentFrom. intros (A1 & B1 & C1 & D1) (A2 & B2 & C2 & D2).
  repeat split; try congruence; auto.
Qed.

Lemma sentFrom_trySend (v : Z) (c : Chan) : sentFrom v c (trySend v c).
Proof.
  unfold sentFrom, trySend.
  destruct (Nat.ltb_spec (length (buf c)) (cap c)); simpl; repeat split; auto.
  - intros _. rewrite length_app. simpl. lia.
  - intros Hv Hb. apply Forall_app. split; [exact Hb |]. now constructor.
Qed.

Lemma sendAll_sentFrom (v : Z) (ss : list nat) : forall (cs : list Chan) i c,
  cs !! i = Some c ->
  exists c', sendAll v ss cs !! i = Some c' /\ sentFrom v c c'.
Proof.
  induction ss as [| ch ss IH]; intros cs i c Hi; simpl.
  - exists c. split; [exact Hi | apply sentFrom_refl].
  - destruct (cs !! ch) as [c0 |] eqn:Hch; [| now apply IH].
    destruct (decide (ch = i)) as [-> | Hne].
    + assert (c0 = c) as -> by congruence.
      destruct (IH (<[i := trySend v c]> cs) i (trySend v c)) as (c' & Hc' & Hs).
      { apply list_lookup_insert_eq. eapply lookup_lt_Some; eauto. }
      exists c'. split; [exact Hc' |].
      eapply sentFrom_trans; [apply sentFrom_trySend | exact Hs].
    + apply IH. now rewrite list_lookup_insert_ne.
Qed.

Lemma sendAll_notin (v : Z) (ss : list nat) : forall (cs : list Chan) i,
  i ∉ ss -> sendAll v ss cs !! i = cs !! i.
Proof.
  induction ss as [| ch ss IH]; intros cs i Hi; simpl; [reflexivity |].
  apply not_elem_of_cons in Hi as [Hne Hi].
  rewrite IH by exact Hi.
  destruct (cs !! ch); [| reflexivity].
  now rewrite list_lookup_insert_ne.
Qed.

Lemma sendAll_in (v : Z) (ss : list nat) : forall (cs : list Chan) i c,
  NoDup ss -> i ∈ ss -> cs !! i = Some c ->
  sendAll v ss cs !! i = Some (trySend v c).
Proof.
  induction ss as [| ch ss IH]; intros cs i c Hnd Hi Hc; simpl.
  - inversion Hi.
  - apply NoDup_cons in Hnd as [Hch Hnd].
    apply elem_of_cons in Hi as [-> | Hi].
    + rewrite Hc. rewrite sendAll_notin by exact Hch.
      apply list_lookup_insert_eq. eapply lookup_lt_Some; eauto.
    + assert (ch <> i) as Hne by (intros ->; contradiction).
      apply IH; [exact Hnd | exact Hi |].
      destruct (cs !! ch); [| exact Hc].
      now rewrite list_lookup_insert_ne.
Qed.

(** A property of channels that sends keep holds of all channels after a
    turn of the broadcaster if it held before. *)
Lemma Forall_sendAll (P : Chan -> Prop) (v : Z) (ss : list nat) (cs : list Chan) :
  (forall c c', sentFrom v c c' -> P c -> P c') ->
  Forall P cs -> Forall P (sendAll v ss cs).
Proof.
  intros Hkeep Hall. apply Forall_lookup. intros i c' Hi.
  destruct (cs !! i) as [c |] eqn:Hc.
  - destruct (sendAll_sentFrom v ss cs i c Hc) as (c'' & Hc'' & Hs).
    assert (c'' = c') as -> by congruence.
    apply (Hkeep c c' Hs). eapply Forall_lookup_1; eauto.
  - apply lookup_ge_None in Hc. apply lookup_lt_Some in Hi.
    rewrite length_sendAll in Hi. lia.
Qed.

(** ** The broadcaster stays alive *)

Lemma alive_exec (e : Event) (w w' : World) :
  wf w -> alive w -> exec e w = Some w' -> alive w'.
Proof.
  intros Hw (Hb & Hs & Hd & Hc) He.
  assert (forall l, closed <$> (chans w ++ l) !! 1%nat = Some false) as Happ.
  { intros l. destruct (chans w !! 1%nat) as [c |] eqn:E; [| discriminate].
    now rewrite (lookup_app_l_Some _ _ _ _ E). }
  assert (1 < length (chans w))%nat as Hlen.
  { destruct (chans w !! 1%nat) as [c |] eqn:E; [| discriminate].
    eapply lookup_lt_Some; eauto. }
  assert (forall f, withTimer f w = Some w' -> alive w') as Hwith.
  { intros f (a & p & _ & ->)%withTimer_inv. repeat split; auto. }
  assert (broadcastStop w = w) as Hstop.
  { unfold broadcastStop. rewrite Hs.
    destruct (chans w !! 1%nat) as [c |]; [| reflexivity].
    injection Hc as ->. reflexivity. }
  destruct e; simpl in He.
  - injection He as <-. repeat split; simpl; auto.
  - now apply (Hwith StopTimer).
  - apply Reset_inv in He as (a & p & _ & ->). repeat split; simpl; auto.
  - unfold Start in He. destruct (TimerManager.Timer (tm w)).
    + eapply Hwith; eauto.
    + injection He as <-. repeat split; auto.
  - eapply Hwith; eauto.
  - eapply Hwith; eauto.
  - rewrite Hb in He. apply broadcastTick_inv in He as (a & p & _ & ->).
    repeat split; simpl; auto.
    destruct (chans w !! 1%nat) as [c |] eqn:E; [| discriminate].
    destruct (sendAll_sentFrom (Remaining (clock w) p) (TimerManager.subs (tm w))
                (chans w) 1%nat c E) as (c' & -> & _ & Hcl & _).
    simpl in *. congruence.
  - injection He as <-. rewrite Hstop. repeat split; auto.
  - apply Fire_inv in He as [-> | (p & _ & _ & [-> | (c & _ & _ & ->)])];
      repeat split; simpl; auto.
    rewrite list_lookup_insert_ne by lia. exact Hc.
  - injection He as <-. repeat split; auto.
Qed.

Lemma alive_start (now d : Z) : alive (NewTimerManager now d).
Proof. repeat split. simpl. lia. Qed.

(** ** The subscribers *)

Lemma subscribed_same (w w' : World) :
  tm w' = tm w -> chans w' = chans w -> subscribed w -> subscribed w'.
Proof. unfold subscribed. intros -> ->. auto. Qed.

Lemma subscribed_exec (e : Event) (w w' : World) :
  wf w -> subscribed w -> exec e w = Some w' -> subscribed w'.
Proof.
  intros Hw Hsub He. pose proof Hsub as (Hnd & Hd & Hsubs & Hall).
  assert (forall ch, ch ∈ TimerManager.subs (tm w) -> (ch < length (chans w))%nat) as Hlt.
  { intros ch Hch. destruct (Hsubs ch Hch) as (_ & c & Hc & _).
    eapply lookup_lt_Some; eauto. }
  assert (forall f, withTimer f w = Some w' -> subscribed w') as Hwith.
  { intros f (a & p & _ & ->)%withTimer_inv. now apply (subscribed_same w). }
  destruct e; simpl in He.
  - (* Subscribe *)
    injection He as <-. split; [| split; [| split]]; simpl.
    + apply NoDup_app. split; [exact Hnd |]. split; [| apply NoDup_singleton].
      intros ch Hch ->%list_elem_of_singleton. specialize (Hlt _ Hch). lia.
    + rewrite length_app. simpl. lia.
    + intros ch [Hch | ->%list_elem_of_singleton]%elem_of_app.
      * destruct (Hsubs ch Hch) as (Hne & c & Hc & Hcap & Hcl).
        split; [exact Hne |].
        exists c. split; [now apply lookup_app_l_Some | auto].
      * split; [lia |]. exists (mkChan 10 [] false). split; [| split; reflexivity].
        now rewrite lookup_app_r, Nat.sub_diag by lia.
    + apply Forall_app. split; [exact Hall |]. constructor; [simpl; lia | constructor].
  - now apply (Hwith StopTimer).
  - (* Reset *)
    apply Reset_inv in He as (a & p & _ & ->).
    split; [| split; [| split]]; simpl.
    + exact Hnd.
    + rewrite length_app. simpl. lia.
    + intros ch Hch. specialize (Hlt _ Hch).
      destruct (Hsubs ch Hch) as (_ & c & Hc & Hcap & Hcl).
      split; [lia |].
      exists c. split; [now apply lookup_app_l_Some | auto].
    + apply Forall_app. split; [exact Hall |]. constructor; [simpl; lia | constructor].
  - unfold Start in He. destruct (TimerManager.Timer (tm w)).
    + eapply Hwith; eauto.
    + now injection He as <-.
  - eapply Hwith; eauto.
  - eapply Hwith; eauto.
  - (* Tick *)
    destruct (broadcasting w); [| now injection He as <-].
    apply broadcastTick_inv in He as (a & p & _ & ->).
    split; [| split; [| split]]; simpl.
    + exact Hnd.
    + now rewrite length_sendAll.
    + intros ch Hch.
      destruct (Hsubs ch Hch) as (Hne & c & Hc & Hcap & Hcl).
      split; [exact Hne |].
      destruct (sendAll_sentFrom (Remaining (clock w) p) (TimerManager.subs (tm w))
                  (chans w) ch c Hc) as (c' & Hc' & Hcap' & Hcl' & _).
      exists c'. split; [exact Hc' |]. split; congruence.
    + apply Forall_sendAll; [| exact Hall].
      intros c c' (_ & _ & Hb & _). exact Hb.
  - (* StopBroadcast *)
    injection He as <-. apply (subscribed_same w); [| | exact Hsub];
      unfold broadcastStop;
      destruct (chans w !! TimerManager.stopCh (tm w)) as [c |]; try reflexivity;
      destruct (closed c); reflexivity.
  - (* TimerFires *)
    apply Fire_inv in He as [-> | (p & _ & _ & [-> | (c & Hc & _ & ->)])].
    + exact Hsub.
    + now apply (subscribed_same w).
    + split; [| split; [| split]]; simpl.
      * exact Hnd.
      * now rewrite length_insert.
      * intros ch Hch.
        destruct (Hsubs ch Hch) as (Hne & c0 & Hc0 & Hcap & Hcl).
        split; [exact Hne |].
        exists c0. split; [| auto]. now rewrite list_lookup_insert_ne by auto.
      * apply Forall_insert; [exact Hall |]. simpl.
        exact (Forall_lookup_1 _ _ _ _ Hall Hc).
  - injection He as <-. now apply (subscribed_same w).
Qed.

Lemma subscribed_start (now d : Z) : subscribed (NewTimerManager now d).
Proof.
  split; [| split; [| split]]; simpl.
  - constructor.
  - lia.
  - intros ch Hch. inversion Hch.
  - repeat constructor.
Qed.

(** ** Durations, start instants and the values sent *)

Lemma Remaining_nonneg (now : Z) (p : TimerData.t) :
  int64 (TimerData.Duration p) ->
  TimerData.StartedAt p = 0 \/ TimerData.StartedAt p <= now ->
  0 <= Remaining now p.
Proof.
  intros Hd Hs. pose proof (Elapsed_range now p Hs).
  rewrite Remaining_floor by (auto; lia). lia.
Qed.

Lemma timed_update (w : World) (a : nat) (q : TimerData.t) :
  timed w ->
  int64 (TimerData.Duration q) ->
  TimerData.StartedAt q = 0 \/ TimerData.StartedAt q <= clock w ->
  timed (setTimers (<[a := q]> (timers w)) w).
Proof.
  intros [Ht Hc] Hd Hs. split; [| exact Hc]. simpl.
  intros b p [(_ & <- & _) | (_ & Hb)]%list_lookup_insert_Some; eauto.
Qed.

Lemma timed_exec (e : Event) (w w' : World) :
  wf w -> timed w -> exec e w = Some w' -> timed w'.
Proof.
  intros Hw Htimed He. pose proof Htimed as [Ht Hc].
  assert (forall f,
            (forall p, int64 (TimerData.Duration p) ->
               TimerData.StartedAt p = 0 \/ TimerData.StartedAt p <= clock w ->
               int64 (TimerData.Duration (f p)) /\
               (TimerData.StartedAt (f p) = 0 \/ TimerData.StartedAt (f p) <= clock w)) ->
            withTimer f w = Some w' -> timed w') as Hwith.
  { intros f Hf (a & p & [_ Hp]%deref_Some & ->)%withTimer_inv.
    destruct (Ht a p Hp) as [Hd Hs]. destruct (Hf p Hd Hs).
    now apply timed_update. }
  destruct e; simpl in He.
  - injection He as <-. split; [exact Ht |]. simpl.
    apply Forall_app. split; [exact Hc |]. repeat constructor.
  - apply (Hwith StopTimer); auto.
  - apply Reset_inv in He as (a & p & [_ Hp]%deref_Some & ->). split; simpl.
    + intros b q [Hb | [_ Hb]]%lookup_app_Some; [eauto |].
      apply list_lookup_singleton_Some in Hb as [_ <-]. simpl.
      split; [apply (Ht a p Hp) | auto].
    + apply Forall_app. split; [exact Hc |]. repeat constructor.
  - unfold Start in He. destruct (TimerManager.Timer (tm w)).
    + apply (fun H => Hwith _ H He). intros p Hd _. simpl. split; [exact Hd | right; lia].
    + now injection He as <-.
  - apply (fun H => Hwith _ H He). intros p _ Hs. split; [apply wrap64_range | exact Hs].
  - apply (fun H => Hwith _ H He). intros p _ Hs.
    destruct (5 * Second <? TimerData.Duration p).
    + split; [apply wrap64_range | exact Hs].
    + split; [| exact Hs]. unfold int64, MinInt64, MaxInt64. simpl. lia.
  - destruct (broadcasting w); [| now injection He as <-].
    apply broadcastTick_inv in He as (a & p & [_ Hp]%deref_Some & ->).
    split; [exact Ht |]. simpl.
    destruct (Ht a p Hp) as [Hd Hs].
    apply Forall_sendAll; [| exact Hc].
    intros c c' (_ & _ & _ & Hv). apply Hv. now apply Remaining_nonneg.
  - injection He as <-. unfold broadcastStop.
    destruct (chans w !! TimerManager.stopCh (tm w)) as [c |]; [| exact Htimed].
    destruct (closed c); [| exact Htimed]. split; auto.
  - apply Fire_inv in He as [-> | (p & Hp & _ & Hcase)]; [exact Htimed |].
    destruct (Ht a p Hp) as [Hd Hs].
    assert (timed (setTimers (<[a := complete (clock w) p]> (timers w)) w)) as [Ht1 Hc1].
    { now apply timed_update. }
    destruct Hcase as [-> | (c & Hch & _ & ->)]; [now split |].
    split; [exact Ht1 |]. simpl.
    apply Forall_insert; [exact Hc |]. simpl.
    exact (Forall_lookup_1 _ _ _ _ Hc Hch).
  - injection He as <-. split; [| exact Hc]. simpl.
    intros b p Hb. destruct (Ht b p Hb) as [Hd Hs]. split; [exact Hd | lia].
Qed.

Lemma timed_start (now d : Z) : int64 d -> timed (NewTimerManager now d).
Proof.
  intros Hd. split; simpl.
  - intros [| a] p; simpl; [| discriminate]. intros [= <-]. simpl. auto.
  - repeat constructor.
Qed.

(** Reachable coordinators keep all of the above. *)
Lemma reachable_sound (now d : Z) (es : list Event) (w : World) :
  run es (NewTimerManager now d) = Some w ->
  wf w /\ alive w /\ subscribed w /\ (int64 d -> timed w).
Proof.
  intros Hr. pose proof (wf_NewTimerManager now d) as Hw0.
  split; [exact (run_wf es _ w Hw0 Hr) |]. split; [| split].
  - exact (run_invariant alive alive_exec es _ w Hw0 (alive_start now d) Hr).
  - exact (run_invariant subscribed subscribed_exec es _ w Hw0 (subscribed_start now d) Hr).
  - intros Hd.
    exact (run_invariant timed timed_exec es _ w Hw0 (timed_start now d Hd) Hr).
Qed.

(** X5.  No run of a coordinator panics: whatever methods are called, in
    whatever order and interleaved in whatever way with the broadcaster, the
    timer callbacks and the passing of time, every step finds the primitive
    and the channels it dereferences. *)
Theorem coordinator_never_panics (now d : Z) (es : list Event) :
  exists w, run es (NewTimerManager now d) = Some w /\
    is_Some (deref w) /\ is_Some (chans w !! Done w).
Proof.
  destruct (wf_run es _ (wf_NewTimerManager now d)) as (w & Hr & Hw).
  exists w. split; [exact Hr |]. split.
  - destruct (wf_deref w Hw) as (a & p & ->). eauto.
  - apply lookup_lt_is_Some_2. exact (wf_done w Hw).
Qed.

(** X6.  The broadcaster of a coordinator never ends: no method closes the
    stop channel, so in every state a coordinator can reach the stop channel
    is open and the broadcaster is running. *)
Theorem broadcaster_never_stops (now d : Z) (es : list Event) (w : World) :
  run es (NewTimerManager now d) = Some w ->
  broadcasting w = true /\
  isClosed w (TimerManager.stopCh (tm w)) = Some false /\
  exec StopBroadcast w = Some w.
Proof.
  intros (_ & (Hb & Hs & _ & Hc) & _)%reachable_sound.
  split; [exact Hb |]. unfold isClosed. rewrite Hs. split; [exact Hc |].
  simpl. f_equal. unfold broadcastStop. rewrite Hs.
  destruct (chans w !! 1%nat) as [c |]; [| reflexivity].
  injection Hc as ->. reflexivity.
Qed.

Lemma broadcaster_never_stops_witness :
  exists w,
    run [CallStart; Tick; CallReset; StopBroadcast] (NewTimerManager 0 Second) = Some w /\
    broadcasting w = true.
Proof.
  eexists. split; [vm_compute; reflexivity |].
  apply (broadcaster_never_stops 0 Second [CallStart; Tick; CallReset; StopBroadcast]).
  reflexivity.
Defined.

(** X7.  The subscriber channels of a coordinator are distinct, open, of
    capacity 10, and never hold more than 10 values: a subscriber that does
    not read loses ticks, it is never sent more than its buffer takes. *)
Theorem subscribers_hold_at_most_ten (now d : Z) (es : list Event) (w : World) :
  run es (NewTimerManager now d) = Some w ->
  NoDup (TimerManager.subs (tm w)) /\
  forall ch, ch ∈ TimerManager.subs (tm w) ->
    exists c, chans w !! ch = Some c /\
      cap c = 10%nat /\ (length (buf c) <= 10)%nat /\ closed c = false.
Proof.
  intros (_ & _ & (Hnd & _ & Hsubs & Hall) & _)%reachable_sound.
  split; [exact Hnd |]. intros ch Hch.
  destruct (Hsubs ch Hch) as (_ & c & Hc & Hcap & Hcl).
  exists c. repeat split; auto.
  rewrite <- Hcap. exact (Forall_lookup_1 _ _ _ _ Hall Hc).
Qed.

Lemma subscribers_hold_at_most_ten_witness :
  exists w,
    run ([CallSubscribe; CallStart] ++ repeat Tick 12)%list (NewTimerManager 0 Second) = Some w /\
    exists c, chans w !! 3%nat = Some c /\
      cap c = 10%nat /\ (length (buf c) <= 10)%nat /\ closed c = false.
Proof.
  eexists. split; [vm_compute; reflexivity |].
  apply (subscribers_hold_at_most_ten 0 Second
           ([CallSubscribe; CallStart] ++ repeat Tick 12)%list).
  - reflexivity.
  - apply list_elem_of_singleton. reflexivity.
Defined.

(** X8.  [Subscribe()] returns a channel that did not exist: it is none of
    the earlier subscribers', not the done channel and not the stop channel;
    it is empty, open and of capacity 10, is appended to the subscribers, and
    nothing else of the coordinator changes. *)
Theorem Subscribe_returns_new_channel (now d : Z) (es : list Event) (w : World) :
  run es (NewTimerManager now d) = Some w ->
  let ch := fst (Subscribe w) in
  let w' := snd (Subscribe w) in
  (ch ∉ TimerManager.subs (tm w)) /\ ch <> Done w /\
  ch <> TimerManager.stopCh (tm w) /\
  chans w !! ch = None /\
  chans w' !! ch = Some (mkChan 10 [] false) /\
  TimerManager.subs (tm w') = (TimerManager.subs (tm w) ++ [ch])%list /\
  (forall i c, chans w !! i = Some c -> chans w' !! i = Some c) /\
  timers w' = timers w /\ Snapshot w' = Snapshot w /\ Done w' = Done w.
Proof.
  intros (_ & (_ & Hs & _ & Hc) & (_ & Hd & Hsubs & _) & _)%reachable_sound.
  simpl. repeat split.
  - intros Hch. destruct (Hsubs _ Hch) as (_ & c & Hc' & _).
    apply lookup_lt_Some in Hc'. lia.
  - unfold Done. lia.
  - rewrite Hs. destruct (chans w !! 1%nat) as [c |] eqn:E; [| discriminate].
    apply lookup_lt_Some in E. lia.
  - apply lookup_ge_None_2. lia.
  - now rewrite lookup_app_r, Nat.sub_diag by lia.
  - intros i c Hi. now apply lookup_app_l_Some.
Qed.

Lemma Subscribe_returns_new_channel_witness :
  let w := NewTimerManager 0 Second in
  fst (Subscribe w) = 3%nat /\
  (fst (Subscribe w) ∉ TimerManager.subs (tm w)) /\
  chans (snd (Subscribe w)) !! fst (Subscribe w) = Some (mkChan 10 [] false).
Proof.
  intros w.
  destruct (Subscribe_returns_new_channel 0 Second [] w eq_refl)
    as (H1 & _ & _ & _ & H5 & _).
  split; [reflexivity |]. split; [exact H1 | exact H5].
Defined.

(** X9.  A turn of the broadcaster stores the primitive's [Remaining()] as
    the snapshot and offers it once to every subscriber: a subscriber with
    room gets it appended, one whose 10 places are taken keeps its buffer
    (the value is dropped for it), and no other channel is touched. *)
Theorem Tick_delivers_remaining
    (now d : Z) (es : list Event) (w : World) (a : nat) (p : TimerData.t) :
  run es (NewTimerManager now d) = Some w ->
  deref w = Some (a, p) ->
  exists w', exec Tick w = Some w' /\
    Snapshot w' = Remaining (clock w) p /\
    (forall ch c, ch ∈ TimerManager.subs (tm w) -> chans w !! ch = Some c ->
       chans w' !! ch =
         Some (if (length (buf c) <? 10)%nat
               then mkChan 10 (buf c ++ [Remaining (clock w) p]) false
               else c)) /\
    (forall ch, ch ∉ TimerManager.subs (tm w) -> chans w' !! ch = chans w !! ch) /\
    timers w' = timers w /\ Done w' = Done w.
Proof.
  intros (_ & (Hb & _) & (Hnd & _ & Hsubs & _) & _)%reachable_sound Hap.
  simpl. rewrite Hb. unfold broadcastTick. rewrite Hap. simpl.
  eexists. split; [reflexivity |]. simpl. repeat split.
  - intros ch c Hch Hc.
    rewrite (sendAll_in _ _ _ ch c Hnd Hch Hc).
    destruct (Hsubs ch Hch) as (_ & c0 & Hc0 & Hcap & Hcl).
    assert (c0 = c) as -> by congruence.
    unfold trySend. rewrite Hcap, Hcl. reflexivity.
  - intros ch Hch. now apply sendAll_notin.
Qed.

Lemma Tick_delivers_remaining_witness :
  exists w w',
    run [CallSubscribe; CallStart; Advance 50] (NewTimerManager 1000 200) = Some w /\
    exec Tick w = Some w' /\ Snapshot w' = 150.
Proof.
  destruct (Tick_delivers_remaining 1000 200 [CallSubscribe; CallStart; Advance 50]
              _ 0%nat _ eq_refl eq_refl) as (w' & Ht & Hs & _).
  eexists. exists w'. split; [| split]; [| exact Ht |].
  - reflexivity.
  - rewrite Hs. vm_compute. reflexivity.
Defined.

(** X10.  No subscriber is ever sent a negative value: every value in every
    channel of a coordinator is at least zero, whatever the duration it was
    constructed with and however it was adjusted. *)
Theorem sent_values_not_negative (now d : Z) (es : list Event) (w : World) :
  int64 d ->
  run es (NewTimerManager now d) = Some w ->
  forall ch c, chans w !! ch = Some c -> Forall (fun v => 0 <= v) (buf c).
Proof.
  intros Hd (_ & _ & _ & Ht)%reachable_sound ch c Hc.
  destruct (Ht Hd) as [_ Hall].
  exact (Forall_lookup_1 _ _ _ _ Hall Hc).
Qed.

Lemma sent_values_not_negative_witness :
  exists w c,
    run [CallSubscribe; CallStart; Advance 50; Tick] (NewTimerManager 0 (-7)) = Some w /\
    chans w !! 3%nat = Some c /\ buf c = [0] /\ Forall (fun v => 0 <= v) (buf c).
Proof.
  eexists. eexists. split; [vm_compute; reflexivity |].
  split; [reflexivity |]. split; [reflexivity |].
  apply (sent_values_not_negative 0 (-7)
           [CallSubscribe; CallStart; Advance 50; Tick] _
           ltac:(vm_compute; split; discriminate) eq_refl 3%nat).
  reflexivity.
Defined.

(** ** Completion *)

Lemma open_exec (e : Event) (w w' : World) :
  isFire e = false ->
  Forall (fun c => closed c = false) (chans w) ->
  exec e w = Some w' ->
  Forall (fun c => closed c = false) (chans w').
Proof.
  intros Hf Hall He.
  assert (forall l, Forall (fun c => closed c = false) l ->
            Forall (fun c => closed c = false) (chans w ++ l)) as Happ.
  { intros l Hl. apply Forall_app. auto. }
  assert (forall f, withTimer f w = Some w' ->
            Forall (fun c => closed c = false) (chans w')) as Hwith.
  { intros f (a & p & _ & ->)%withTimer_inv. exact Hall. }
  destruct e; simpl in He; try discriminate.
  - injection He as <-. simpl. apply Happ. repeat constructor.
  - now apply (Hwith StopTimer).
  - apply Reset_inv in He as (a & p & _ & ->). simpl. apply Happ. repeat constructor.
  - unfold Start in He. destruct (TimerManager.Timer (tm w)).
    + eapply Hwith; eauto.
    + now injection He as <-.
  - eapply Hwith; eauto.
  - eapply Hwith; eauto.
  - destruct (broadcasting w); [| now injection He as <-].
    apply broadcastTick_inv in He as (a & p & _ & ->). simpl.
    apply Forall_sendAll; [| exact Hall].
    intros c c' (_ & Hcl & _). congruence.
  - injection He as <-. unfold broadcastStop.
    destruct (chans w !! TimerManager.stopCh (tm w)) as [c |]; [| exact Hall].
    destruct (closed c); exact Hall.
  - injection He as <-. exact Hall.
Qed.

(** X11.  Only a countdown that fires closes a channel: in a run in which no
    timer callback has run, every channel is open, and [Done()] in
    particular returns a channel that is not ready, however often the
    coordinator was started, stopped, adjusted or reset. *)
Theorem Done_closed_only_by_fire (now d : Z) (es : list Event) (w : World) :
  forallb (fun e => negb (isFire e)) es = true ->
  run es (NewTimerManager now d) = Some w ->
  (forall ch c, chans w !! ch = Some c -> closed c = false) /\
  isClosed w (Done w) = Some false.
Proof.
  intros Hes Hr.
  assert (Forall (fun c => closed c = false) (chans w)) as Hall.
  { revert Hes Hr.
    assert (Forall (fun c => closed c = false) (chans (NewTimerManager now d))) as H0
      by repeat constructor.
    revert H0. generalize (NewTimerManager now d) as w0.
    induction es as [| e es IH]; intros w0 H0; simpl.
    - intros _ [= <-]. exact H0.
    - intros [He Hes]%andb_true_iff. apply negb_true_iff in He.
      destruct (exec e w0) as [w1 |] eqn:Hex; simpl; [| discriminate].
      apply IH; [| exact Hes]. now apply (open_exec e w0). }
  split.
  - intros ch c Hc. exact (Forall_lookup_1 _ _ _ _ Hall Hc).
  - apply reachable_sound in Hr as (Hw & _).
    destruct (lookup_lt_is_Some_2 _ _ (wf_done w Hw)) as [c Hc].
    unfold isClosed, Done. rewrite Hc. simpl. f_equal.
    exact (Forall_lookup_1 _ _ _ _ Hall Hc).
Qed.

Lemma Done_closed_only_by_fire_witness :
  exists w,
    run [CallStart; Advance 500; Tick; CallStop; CallReset; CallStart]
      (NewTimerManager 1000 200) = Some w /\
    isClosed w (Done w) = Some false.
Proof.
  eexists. split; [vm_compute; reflexivity |].
  apply (Done_closed_only_by_fire 1000 200
           [CallStart; Advance 500; Tick; CallStop; CallReset; CallStart]);
    reflexivity.
Defined.

Lemma due_armed (now : Z) (p : TimerData.t) : due now p = true -> armed p = true.
Proof.
  unfold due, armed. destruct (TimerData.Timer p) as [r |]; [| discriminate].
  now intros [-> _]%andb_true_iff.
Qed.

Lemma run_app (es1 es2 : list Event) (w : World) :
  run (es1 ++ es2) w = run es1 w ≫= run es2.
Proof.
  revert w. induction es1 as [| e es1 IH]; intros w; simpl; [reflexivity |].
  destruct (exec e w); simpl; [apply IH | reflexivity].
Qed.

(** [Inc()] and [Dec()] leave the runtime timer of the primitive alone. *)
Lemma adjust_keeps_deadline (adj : list Event) : forall (w : World) a q r,
  forallb isAdjust adj = true ->
  wf w -> deref w = Some (a, q) -> TimerData.Timer q = Some r ->
  exists w' q', run adj w = Some w' /\ wf w' /\
    deref w' = Some (a, q') /\ TimerData.Timer q' = Some r /\
    clock w' = clock w /\ Done w' = Done w.
Proof.
  induction adj as [| e adj IH]; intros w a q r Hadj Hw Hap Hr; simpl.
  - exists w, q. split; [reflexivity |]. split; [exact Hw |]. auto.
  - simpl in Hadj. apply andb_true_iff in Hadj as [He Hadj].
    assert (exists f, exec e w = withTimer f w /\
              forall p, TimerData.Timer (f p) = TimerData.Timer p) as (f & Hex & Hf).
    { destruct e; try discriminate; eexists; (split; [reflexivity |]); intros p; simpl.
      - reflexivity.
      - now destruct (5 * Second <? TimerData.Duration p). }
    destruct (wf_exec e w Hw) as (w1 & He1 & Hw1).
    rewrite He1. simpl. rewrite Hex, (withTimer_Some f w a q Hap) in He1.
    injection He1 as <-.
    destruct (IH _ a (f q) r Hadj Hw1) as (w' & q' & Hrun & Hw' & Hd' & Hr' & Hc' & Hdn').
    + exact (deref_withTimer f w a q Hap).
    + now rewrite Hf.
    + exists w', q'. split; [exact Hrun |]. split; [exact Hw' |].
      split; [exact Hd' |]. split; [exact Hr' |]. split; [exact Hc' | exact Hdn'].
Qed.

(** ** Callbacks as goroutines *)

Lemma takeOut_None (a : nat) (l : list nat) : a ∉ l -> takeOut a l = None.
Proof.
  induction l as [| b l IH]; intros Hn; simpl; [reflexivity |].
  apply not_elem_of_cons in Hn as [Hne Hn].
  destruct (Nat.eqb_spec a b); [contradiction |].
  now rewrite IH.
Qed.

Lemma takeOut_elem (a : nat) (l : list nat) : a ∈ l -> is_Some (takeOut a l).
Proof.
  induction l as [| b l IH]; intros Hin; simpl.
  - inversion Hin.
  - destruct (Nat.eqb_spec a b); [eauto |].
    apply elem_of_cons in Hin as [-> | Hin]; [contradiction |].
    destruct (IH Hin) as [k ->]. simpl. eauto.
Qed.

Lemma takeOut_subset (a : nat) (l k : list nat) :
  takeOut a l = Some k -> forall x, x ∈ k -> x ∈ l.
Proof.
  revert k. induction l as [| b l IH]; intros k; simpl; [discriminate |].
  destruct (Nat.eqb_spec a b).
  - intros [= <-] x Hx. apply elem_of_cons. now right.
  - destruct (takeOut a l) as [k' |]; simpl; [| discriminate].
    intros [= <-] x Hx. apply elem_of_cons in Hx as [-> | Hx]; apply elem_of_cons.
    + now left.
    + right. now apply (IH k').
Qed.

(** No step panics, whatever goroutines are waiting. *)
Lemma wf_step (st : Step) (s : Sched) :
  wf (world s) -> exists s', step st s = Some s' /\ wf (world s').
Proof.
  intros Hw. destruct st as [e | a | a | k]; simpl.
  - destruct (wf_exec e _ Hw) as (w' & -> & Hw'). simpl. eauto.
  - destruct (timers (world s) !! a) as [p |] eqn:Hp; [| eauto].
    destruct (due (clock (world s)) p); [| eauto].
    eexists. split; [reflexivity |]. simpl.
    apply wf_update_timer; [exact Hw |]. simpl. intros Hs.
    apply (wf_handler _ Hw a p Hp).
    destruct (TimerData.Timer p); [eauto | destruct Hs; discriminate].
  - destruct (takeOut a (started s)) as [rest |]; [| eauto].
    destruct (timers (world s) !! a) as [p |] eqn:Hp; [| eauto].
    eexists. split; [reflexivity |]. simpl.
    apply wf_update_timer; [exact Hw |]. simpl.
    exact (wf_handler _ Hw a p Hp).
  - destruct (handlers s !! k) as [h |]; [| eauto].
    destruct (wf_runHandler h _ Hw) as (w' & -> & Hw'). simpl. eauto.
Qed.

Lemma wf_steps (sts : list Step) (s : Sched) :
  wf (world s) -> exists s', steps sts s = Some s' /\ wf (world s').
Proof.
  revert s. induction sts as [| st sts IH]; intros s Hw; simpl.
  - eauto.
  - destruct (wf_step st s Hw) as (s1 & -> & Hw1). simpl. now apply IH.
Qed.

Lemma steps_wf (sts : list Step) (s s' : Sched) :
  wf (world s) -> steps sts s = Some s' -> wf (world s').
Proof.
  intros Hw Hr. destruct (wf_steps sts s Hw) as (s1 & Hr1 & Hw1). congruence.
Qed.

Lemma steps_app (sts1 sts2 : list Step) (s : Sched) :
  steps (sts1 ++ sts2) s = steps sts1 s ≫= steps sts2.
Proof.
  revert s. induction sts1 as [| st sts1 IH]; intros s; simpl; [reflexivity |].
  destruct (step st s); simpl; [apply IH | reflexivity].
Qed.

(** Events of the coordinator leave the waiting goroutines alone. *)
Lemma steps_Do (es : list Event) (s : Sched) :
  steps (map Do es) s
    = w' ← run es (world s); Some (mkSched w' (started s) (handlers s)).
Proof.
  revert s. induction es as [| e es IH]; intros s; simpl.
  - now destruct s.
  - destruct (exec e (world s)) as [w1 |]; simpl; [| reflexivity].
    now rewrite IH.
Qed.

(** The handler leaves the done channel closed and touches nothing else. *)
Lemma runHandler_closes (h : HandlerFn) (w : World) :
  wf w ->
  exists w', runHandler h w = Some w' /\
    isClosed w' (Done w) = Some true /\
    timers w' = timers w /\ clock w' = clock w /\ tm w' = tm w.
Proof.
  intros Hw. destruct h. unfold runHandler, isClosed, Done.
  destruct (lookup_lt_is_Some_2 _ _ (wf_done w Hw)) as [c Hc].
  rewrite Hc. simpl. destruct (closed c) eqn:Hcl.
  - eexists. split; [reflexivity |]. rewrite Hc. simpl. now rewrite Hcl.
  - eexists. split; [reflexivity |]. simpl.
    rewrite list_lookup_insert_eq by (eapply lookup_lt_Some; eauto). auto.
Qed.

Lemma runHandler_timers (h : HandlerFn) (w w' : World) :
  runHandler h w = Some w' -> timers w' = timers w.
Proof.
  destruct h. unfold runHandler.
  destruct (chans w !! TimerManager.doneCh (tm w)) as [c |]; simpl; [| discriminate].
  destruct (closed c); intros [= <-]; reflexivity.
Qed.

(** The event [TimerFires] is the three steps of a callback with nothing in
    between. *)
Lemma TimerFires_is_uninterrupted (s : Sched) (a : nat) (p : TimerData.t) :
  wf (world s) ->
  timers (world s) !! a = Some p ->
  due (clock (world s)) p = true ->
  steps [TimerExpires a; CallbackRuns a; HandlerRuns 0] s = step (Do (TimerFires a)) s.
Proof.
  intros Hw Hp Hdue.
  pose proof (lookup_lt_Some _ _ _ Hp) as Hlt.
  assert (TimerData.Handler p = Some closeDoneCh) as Hh.
  { apply (wf_handler _ Hw a p Hp). apply due_armed in Hdue.
    unfold armed in Hdue. destruct (TimerData.Timer p); [eauto | discriminate]. }
  simpl. unfold Fire. rewrite Hp, Hdue. simpl. rewrite Nat.eqb_refl.
  rewrite list_lookup_insert_eq by exact Hlt. simpl. rewrite Hh.
  unfold setTimers. simpl. rewrite list_insert_insert_eq.
  change (finish (clock (world s)) (expire p)) with (complete (clock (world s)) p).
  destruct (chans (world s) !! TimerManager.doneCh (tm (world s))) as [c |]; simpl;
    [| reflexivity].
  destruct (closed c); reflexivity.
Qed.

(** After [Start()], and [Inc()] and [Dec()] after it, the timer of the
    primitive is pending for the instant the duration held at [Start()]
    gives. *)
Lemma Start_arms (adj : list Event) (w : World) (a : nat) (p : TimerData.t) (dt : N) :
  wf w -> deref w = Some (a, p) -> 0 <= TimerData.Duration p ->
  forallb isAdjust adj = true ->
  exists wA q, run (CallStart :: adj ++ [Advance dt]) w = Some wA /\ wf wA /\
    timers wA !! a = Some q /\
    TimerData.Timer q = Some (mkRtTimer (clock w + TimerData.Duration p) true) /\
    clock wA = clock w + Z.of_N dt /\ Done wA = Done w.
Proof.
  intros Hw Hap Hd Hadj.
  destruct (wf_exec CallStart w Hw) as (w1 & Hs & Hw1).
  pose proof Hs as Hs'. simpl in Hs'. unfold Start in Hs'.
  pose proof Hap as [Ha Hp]%deref_Some. rewrite Ha in Hs'.
  rewrite (withTimer_Some _ w a p Hap) in Hs'. injection Hs' as Hw1eq.
  destruct (adjust_keeps_deadline adj w1 a
              (StartTimer (clock w) (setHandler (Some closeDoneCh) p))
              (mkRtTimer (clock w + TimerData.Duration p) true) Hadj Hw1)
    as (w1' & q & Hrun & Hw1' & Hq & Hqt & Hclk & Hdone).
  { rewrite <- Hw1eq.
    exact (deref_withTimer
             (fun p => StartTimer (clock w) (setHandler (Some closeDoneCh) p)) w a p Hap). }
  { simpl. unfold AfterFunc. do 2 f_equal. lia. }
  assert (clock w1 = clock w /\ Done w1 = Done w) as [Hc1 Hd1].
  { rewrite <- Hw1eq. auto. }
  set (wA := mkWorld (clock w1' + Z.of_N dt) (timers w1') (chans w1') (tm w1')
               (broadcasting w1')).
  assert (wf wA) as HwA.
  { destruct (wf_exec (Advance dt) w1' Hw1') as (x & Hx & Hwx).
    simpl in Hx. injection Hx as <-. exact Hwx. }
  apply deref_Some in Hq as [_ Hq].
  exists wA, q. split.
  { change (run (CallStart :: adj ++ [Advance dt]) w)
      with (exec CallStart w ≫= run (adj ++ [Advance dt])).
    rewrite Hs. simpl. rewrite run_app, Hrun. reflexivity. }
  split; [exact HwA |]. split; [exact Hq |]. split; [exact Hqt |]. split.
  - simpl. lia.
  - change (Done wA) with (Done w1'). congruence.
Qed.

(** X12.  A countdown and the goroutine of its callback.  Let [Start()] be
    called with a duration [d >= 0], and [Inc()] and [Dec()] after it.
    If no closure of an earlier arming of the primitive is waiting to run:
    before [d] has passed the runtime starts no closure and none runs; at
    [d] or later the runtime starts the closure, which may run any time
    afterwards: it then sets [IsComplete], and [CompletedAt] to the instant
    at which it runs, and the handler it calls leaves the done channel
    closed; the timer is no longer pending and nothing is left to run for
    this primitive.  [Inc()] and [Dec()] do not move the deadline.
    If a closure of an earlier arming is waiting, [Timer.Stop()] in
    [StartTimer] does not hold it back: run after [Start()], it marks the
    restarted countdown complete while its timer is still pending. *)
Theorem countdown_fires_at_deadline
    (now d : Z) (sts : list Step) (adj : list Event) (s : Sched)
    (a : nat) (p : TimerData.t) :
  steps sts (boot now d) = Some s ->
  deref (world s) = Some (a, p) ->
  0 <= TimerData.Duration p ->
  forallb isAdjust adj = true ->
  (a ∉ started s ->
   forall dt : N,
     let upto := map Do (CallStart :: adj ++ [Advance dt]) in
     (Z.of_N dt < TimerData.Duration p ->
      steps (upto ++ [TimerExpires a]) s = steps upto s /\
      steps (upto ++ [CallbackRuns a]) s = steps upto s) /\
     (TimerData.Duration p <= Z.of_N dt ->
      forall dt' : N,
      exists s2,
        steps (upto ++ [TimerExpires a; Do (Advance dt'); CallbackRuns a; HandlerRuns 0]) s
          = Some s2 /\
        isClosed (world s2) (Done (world s)) = Some true /\
        (exists q, timers (world s2) !! a = Some q /\
           TimerData.IsComplete q = true /\
           TimerData.CompletedAt q = clock (world s) + Z.of_N dt + Z.of_N dt' /\
           armed q = false) /\
        started s2 = started s /\ handlers s2 = handlers s /\
        step (TimerExpires a) s2 = Some s2 /\
        step (CallbackRuns a) s2 = Some s2)) /\
  (a ∈ started s ->
   exists s2 q,
     steps [Do CallStart; CallbackRuns a] s = Some s2 /\
     timers (world s2) !! a = Some q /\
     TimerData.IsComplete q = true /\
     TimerData.CompletedAt q = clock (world s) /\
     armed q = true).
Proof.
  intros Hr Hap Hd Hadj.
  pose proof (steps_wf sts (boot now d) s (wf_NewTimerManager now d) Hr) as Hw.
  split.
  - intros Hfresh dt.
    destruct (Start_arms adj (world s) a p dt Hw Hap Hd Hadj)
      as (wA & q & Hrun & HwA & Hq & Hqt & Hclk & Hdone).
    pose proof (lookup_lt_Some _ _ _ Hq) as Hlt.
    set (sA := mkSched wA (started s) (handlers s)).
    assert (forall tail,
              steps (map Do (CallStart :: adj ++ [Advance dt]) ++ tail) s = steps tail sA)
      as Hgo.
    { intros tail. rewrite steps_app, steps_Do, Hrun. reflexivity. }
    assert (steps (map Do (CallStart :: adj ++ [Advance dt])) s = Some sA) as Hupto.
    { rewrite steps_Do, Hrun. reflexivity. }
    assert (due (clock wA) q = (clock (world s) + TimerData.Duration p <=? clock wA))
      as Hdue.
    { unfold due. rewrite Hqt. reflexivity. }
    cbv zeta. split.
    + intros Hbefore. rewrite !Hgo, Hupto. simpl.
      rewrite Hq, Hdue, (takeOut_None a _ Hfresh).
      destruct (Z.leb_spec (clock (world s) + TimerData.Duration p) (clock wA)); [lia |].
      split; reflexivity.
    + intros Hafter dt'. rewrite Hgo.
      set (q1 := finish (clock wA + Z.of_N dt') (expire q)).
      set (w3 := mkWorld (clock wA + Z.of_N dt') (<[a := q1]> (timers wA)) (chans wA)
                   (tm wA) (broadcasting wA)).
      assert (steps [TimerExpires a; Do (Advance dt'); CallbackRuns a] sA
              = Some (mkSched w3 (started s) (closeDoneCh :: handlers s))) as H3.
      { simpl. rewrite Hq, Hdue.
        destruct (Z.leb_spec (clock (world s) + TimerData.Duration p) (clock wA)); [| lia].
        simpl. rewrite Nat.eqb_refl.
        rewrite list_lookup_insert_eq by exact Hlt. simpl.
        rewrite (wf_handler _ HwA a q Hq) by (rewrite Hqt; eauto).
        unfold setTimers. simpl. rewrite list_insert_insert_eq. reflexivity. }
      assert (wf w3) as Hw3.
      { destruct (wf_steps [TimerExpires a; Do (Advance dt'); CallbackRuns a] sA HwA)
          as (x & Hx & Hwx).
        rewrite H3 in Hx. injection Hx as <-. exact Hwx. }
      destruct (runHandler_closes closeDoneCh w3 Hw3) as (w4 & H4 & Hcl & Ht4 & Hc4 & Htm4).
      exists (mkSched w4 (started s) (handlers s)).
      assert (timers w4 !! a = Some q1) as Hq1.
      { rewrite Ht4. simpl. now apply list_lookup_insert_eq. }
      split.
      { change [TimerExpires a; Do (Advance dt'); CallbackRuns a; HandlerRuns 0]
          with ([TimerExpires a; Do (Advance dt'); CallbackRuns a] ++ [HandlerRuns 0]).
        rewrite steps_app, H3.
        transitivity ((w' ← runHandler closeDoneCh w3;
                       Some (mkSched w' (started s) (handlers s))) ≫= steps []);
          [reflexivity |].
        rewrite H4. reflexivity. }
      split.
      { simpl. rewrite <- Hdone. exact Hcl. }
      split.
      { exists q1. split; [exact Hq1 |]. split; [reflexivity |]. split.
        - simpl. lia.
        - unfold armed, q1. simpl. rewrite Hqt. reflexivity. }
      split; [reflexivity |]. split; [reflexivity |]. simpl.
      rewrite Hq1, (takeOut_None a _ Hfresh).
      unfold due, q1. simpl. rewrite Hqt. simpl. split; reflexivity.
  - intros Hstale.
    destruct (takeOut_elem a _ Hstale) as [rest Hrest].
    pose proof Hap as [Ha Hp]%deref_Some.
    pose proof (lookup_lt_Some _ _ _ Hp) as Hlt.
    set (q0 := StartTimer (clock (world s)) (setHandler (Some closeDoneCh) p)).
    exists (mkSched (setTimers (<[a := finish (clock (world s)) q0]> (timers (world s)))
                       (world s))
              rest (closeDoneCh :: handlers s)),
           (finish (clock (world s)) q0).
    split.
    { simpl. unfold Start. rewrite Ha, (withTimer_Some _ _ a p Hap). simpl.
      rewrite Hrest. rewrite list_lookup_insert_eq by exact Hlt.
      unfold setTimers. simpl. rewrite list_insert_insert_eq. reflexivity. }
    split.
    { simpl. now apply list_lookup_insert_eq. }
    repeat split.
Qed.

Lemma countdown_fires_at_deadline_witness :
  steps (map Do [CallStart; CallInc; Advance 150] ++ [TimerExpires 0]) (boot 1000 200)
    = steps (map Do [CallStart; CallInc; Advance 150]) (boot 1000 200) /\
  (exists s2,
     steps (map Do [CallStart; CallInc; Advance 200]
              ++ [TimerExpires 0; Do (Advance 30); CallbackRuns 0; HandlerRuns 0])
       (boot 1000 200) = Some s2 /\
     isClosed (world s2) 2%nat = Some true) /\
  (exists s1 s2 q,
     steps [Do CallStart; Do (Advance 200); TimerExpires 0] (boot 1000 200) = Some s1 /\
     steps [Do CallStart; CallbackRuns 0] s1 = Some s2 /\
     timers (world s2) !! 0%nat = Some q /\
     TimerData.IsComplete q = true /\ armed q = true).
Proof.
  destruct (countdown_fires_at_deadline 1000 200 [] [CallInc]
              (boot 1000 200) 0%nat (NewTimer 200)
              eq_refl eq_refl ltac:(simpl; lia) eq_refl) as [Hfresh _].
  specialize (Hfresh ltac:(apply not_elem_of_nil)).
  split; [| split].
  - apply (Hfresh 150%N). simpl. lia.
  - destruct (Hfresh 200%N) as [_ Hl].
    destruct (Hl ltac:(simpl; lia) 30%N) as (s2 & Hr & Hc & _).
    exists s2. split; [exact Hr | exact Hc].
  - eexists. 
    destruct (countdown_fires_at_deadline 1000 200
                [Do CallStart; Do (Advance 200); TimerExpires 0] []
                _ 0%nat _ eq_refl eq_refl ltac:(simpl; lia) eq_refl) as [_ Hstale].
    destruct Hstale as (s2 & q & Hr & Hq & Hc & _ & Harm).
    { apply elem_of_cons. now left. }
    exists s2, q. split; [reflexivity |]. split; [exact Hr |].
    split; [exact Hq |]. split; [exact Hc | exact Harm].
Defined.

Lemma disarmed_exec (a : nat) (b : bool) (e : Event) (w w' : World) :
  isStart e = false ->
  (exists q, timers w !! a = Some q /\ armed q = false /\ TimerData.IsComplete q = b) ->
  exec e w = Some w' ->
  exists q, timers w' !! a = Some q /\ armed q = false /\ TimerData.IsComplete q = b.
Proof.
  intros He (q & Hq & Harm & Hc) Hex.
  pose proof (lookup_lt_Some _ _ _ Hq) as Hlt.
  assert (forall f,
            (armed (f q) = false /\ TimerData.IsComplete (f q) = b) ->
            withTimer f w = Some w' ->
            exists q, timers w' !! a = Some q /\ armed q = false /\
                      TimerData.IsComplete q = b) as Hwith.
  { intros f [Hfa Hfc] (a' & p' & [_ Hp']%deref_Some & ->)%withTimer_inv. simpl.
    destruct (decide (a' = a)) as [-> | Hne].
    - assert (p' = q) as -> by congruence.
      exists (f q). split; [now apply list_lookup_insert_eq | auto].
    - exists q. split; [now rewrite list_lookup_insert_ne | auto]. }
  destruct e; simpl in Hex; try discriminate.
  - injection Hex as <-. exists q. auto.
  - apply (Hwith StopTimer); [| exact Hex]. split; [| exact Hc].
    unfold armed in *. simpl. now destruct (TimerData.Timer q).
  - apply Reset_inv in Hex as (a' & p' & _ & ->). simpl.
    exists q. split; [now apply lookup_app_l_Some | auto].
  - apply (fun H => Hwith _ H Hex). auto.
  - apply (fun H => Hwith _ H Hex).
    destruct (5 * Second <? TimerData.Duration q); auto.
  - destruct (broadcasting w); [| injection Hex as <-; eauto].
    apply broadcastTick_inv in Hex as (a' & p' & _ & ->). simpl. eauto.
  - injection Hex as <-. unfold broadcastStop.
    destruct (chans w !! TimerManager.stopCh (tm w)) as [c |]; [| eauto].
    destruct (closed c); simpl; eauto.
  - apply Fire_inv in Hex as [-> | (p' & Hp' & Hdue & Hcase)]; [eauto |].
    assert (a0 <> a) as Hne.
    { intros ->. assert (p' = q) as -> by congruence.
      apply due_armed in Hdue. congruence. }
    exists q. destruct Hcase as [-> | (c & _ & _ & ->)]; simpl;
      (split; [now rewrite list_lookup_insert_ne | auto]).
  - injection Hex as <-. simpl. eauto.
Qed.

Lemma cancelled_step (a : nat) (b : bool) (st : Step) (s s' : Sched) :
  isStartStep st = false ->
  (exists q, timers (world s) !! a = Some q /\ armed q = false /\
             TimerData.IsComplete q = b) ->
  a ∉ started s ->
  step st s = Some s' ->
  (exists q, timers (world s') !! a = Some q /\ armed q = false /\
             TimerData.IsComplete q = b) /\
  a ∉ started s'.
Proof.
  intros Hst Hq Hfresh. destruct st as [e | a' | a' | k]; simpl.
  - destruct (exec e (world s)) as [w' |] eqn:Hex; simpl; [| discriminate].
    intros [= <-]. simpl. split; [| exact Hfresh].
    now apply (disarmed_exec a b e (world s)).
  - destruct Hq as (q & Hq & Harm & Hc).
    destruct (timers (world s) !! a') as [p' |] eqn:Hp'; [| intros [= <-]; eauto].
    destruct (due (clock (world s)) p') eqn:Hdue; [| intros [= <-]; eauto].
    assert (a' <> a) as Hne.
    { intros ->. assert (p' = q) as -> by congruence.
      apply due_armed in Hdue. congruence. }
    intros [= <-]. simpl. split.
    + exists q. split; [now rewrite list_lookup_insert_ne | auto].
    + apply not_elem_of_cons. auto.
  - destruct Hq as (q & Hq & Harm & Hc).
    destruct (takeOut a' (started s)) as [rest |] eqn:Hrest; [| intros [= <-]; eauto].
    destruct (timers (world s) !! a') as [p' |] eqn:Hp'; [| intros [= <-]; eauto].
    assert (a' <> a) as Hne.
    { intros ->. rewrite (takeOut_None a _ Hfresh) in Hrest. discriminate. }
    intros [= <-]. simpl. split.
    + exists q. split; [now rewrite list_lookup_insert_ne | auto].
    + intros Hin. apply Hfresh. exact (takeOut_subset a' _ _ Hrest a Hin).
  - destruct (handlers s !! k) as [h |]; [| intros [= <-]; eauto].
    destruct (runHandler h (world s)) as [w' |] eqn:Hh; simpl; [| discriminate].
    intros [= <-]. simpl. rewrite (runHandler_timers h _ _ Hh). auto.
Qed.

(** X13.  [Stop()] and the goroutine of the callback.  If no closure of the
    current primitive is waiting to run when [Stop()] is called, the
    countdown is cancelled for good: whatever happens afterwards, short of
    another [Start()], that primitive is not armed, the runtime starts no
    closure for it, none runs, and its completion flag stays as it was.  If
    a closure is waiting, [Stop()] does not hold it back: run after
    [Stop()], it marks the primitive complete. *)
Theorem Stop_cancels
    (now d : Z) (sts sts' : list Step) (s : Sched) (a : nat) (p : TimerData.t) :
  steps sts (boot now d) = Some s ->
  deref (world s) = Some (a, p) ->
  forallb (fun st => negb (isStartStep st)) sts' = true ->
  (a ∉ started s ->
   exists s2 q, steps (Do CallStop :: sts') s = Some s2 /\
     timers (world s2) !! a = Some q /\ armed q = false /\
     TimerData.IsComplete q = TimerData.IsComplete p /\
     (a ∉ started s2) /\
     step (TimerExpires a) s2 = Some s2 /\
     step (CallbackRuns a) s2 = Some s2) /\
  (a ∈ started s ->
   exists s2 q, steps [Do CallStop; CallbackRuns a] s = Some s2 /\
     timers (world s2) !! a = Some q /\
     TimerData.IsComplete q = true /\
     TimerData.CompletedAt q = clock (world s)).
Proof.
  intros Hr Hap Hsts.
  pose proof (steps_wf sts (boot now d) s (wf_NewTimerManager now d) Hr) as Hw.
  pose proof Hap as [Ha Hp]%deref_Some.
  pose proof (lookup_lt_Some _ _ _ Hp) as Hlt.
  assert (step (Do CallStop) s
          = Some (mkSched (setTimers (<[a := StopTimer p]> (timers (world s))) (world s))
                    (started s) (handlers s))) as Hstop.
  { simpl. unfold Stop. rewrite (withTimer_Some _ _ a p Hap). reflexivity. }
  split.
  - intros Hfresh.
    destruct (wf_steps (Do CallStop :: sts') s Hw) as (s2 & Hr2 & _).
    assert ((exists q, timers (world s2) !! a = Some q /\ armed q = false /\
                       TimerData.IsComplete q = TimerData.IsComplete p) /\
            a ∉ started s2) as [(q & Hq & Harm & Hc) Hfresh2].
    { simpl in Hr2. simpl in Hstop. rewrite Hstop in Hr2. simpl in Hr2.
      revert Hr2 Hsts.
      set (s1 := mkSched (setTimers (<[a := StopTimer p]> (timers (world s))) (world s))
                   (started s) (handlers s)).
      assert ((exists q, timers (world s1) !! a = Some q /\ armed q = false /\
                         TimerData.IsComplete q = TimerData.IsComplete p) /\
              a ∉ started s1) as H0.
      { split; [| exact Hfresh]. exists (StopTimer p). simpl. split.
        - now apply list_lookup_insert_eq.
        - split; [| reflexivity]. unfold armed. simpl. now destruct (TimerData.Timer p). }
      revert H0. generalize s1 as s0. clear s1.
      induction sts' as [| st sts' IH]; intros s0 H0; simpl.
      - intros [= <-] _. exact H0.
      - intros Hrun [Hst Hsts]%andb_true_iff. apply negb_true_iff in Hst.
        destruct (step st s0) as [s0' |] eqn:Hex; simpl in Hrun; [| discriminate].
        apply (IH s0'); [| exact Hrun | exact Hsts].
        destruct H0 as [H0 H0']. now apply (cancelled_step a _ st s0). }
    exists s2, q. split; [exact Hr2 |]. split; [exact Hq |]. split; [exact Harm |].
    split; [exact Hc |]. split; [exact Hfresh2 |]. simpl.
    rewrite Hq, (takeOut_None a _ Hfresh2).
    destruct (due (clock (world s2)) q) eqn:Hdue; [| split; reflexivity].
    apply due_armed in Hdue. congruence.
  - intros Hstale.
    destruct (takeOut_elem a _ Hstale) as [rest Hrest].
    exists (mkSched (setTimers (<[a := finish (clock (world s)) (StopTimer p)]>
                                  (timers (world s))) (world s))
              rest
              match TimerData.Handler p with
              | Some h => h :: handlers s
              | None => handlers s
              end),
           (finish (clock (world s)) (StopTimer p)).
    split.
    { change (steps [Do CallStop; CallbackRuns a] s)
        with (step (Do CallStop) s ≫= steps [CallbackRuns a]).
      rewrite Hstop. simpl. rewrite Hrest.
      rewrite list_lookup_insert_eq by exact Hlt.
      unfold setTimers. simpl. rewrite list_insert_insert_eq. reflexivity. }
    split.
    { simpl. now apply list_lookup_insert_eq. }
    split; reflexivity.
Qed.

Lemma Stop_cancels_witness :
  (exists s2 q,
     steps [Do CallStart; Do CallStop; Do (Advance 500); TimerExpires 0; CallbackRuns 0;
            Do (TimerFires 0); Do Tick] (boot 1000 200) = Some s2 /\
     timers (world s2) !! 0%nat = Some q /\ armed q = false /\
     TimerData.IsComplete q = false) /\
  (exists s1 s2 q,
     steps [Do CallStart; Do (Advance 200); TimerExpires 0] (boot 1000 200) = Some s1 /\
     steps [Do CallStop; CallbackRuns 0] s1 = Some s2 /\
     timers (world s2) !! 0%nat = Some q /\
     TimerData.IsComplete q = true).
Proof.
  split.
  - destruct (Stop_cancels 1000 200 [Do CallStart]
                [Do (Advance 500); TimerExpires 0; CallbackRuns 0; Do (TimerFires 0); Do Tick]
                _ 0%nat _ eq_refl eq_refl eq_refl) as [Hfresh _].
    destruct Hfresh as (s2 & q & Hr & Hq & Ha & Hc & _).
    { apply not_elem_of_nil. }
    exists s2, q. split; [exact Hr |]. split; [exact Hq |]. split; [exact Ha | exact Hc].
  - eexists.
    destruct (Stop_cancels 1000 200 [Do CallStart; Do (Advance 200); TimerExpires 0] []
                _ 0%nat _ eq_refl eq_refl eq_refl) as [_ Hstale].
    destruct Hstale as (s2 & q & Hr & Hq & Hc & _).
    { apply elem_of_cons. now left. }
    exists s2, q. split; [reflexivity |]. split; [exact Hr |].
    split; [exact Hq | exact Hc].
Defined.

(** X14.  Once a countdown has fired, the next turn of the broadcaster
    stores the whole duration as the snapshot again, for every duration
    that is not negative: [Snapshot()] does not stay at zero after
    completion. *)
Theorem Snapshot_after_completion
    (now d : Z) (es : list Event) (w : World) (a : nat) (p : TimerData.t) :
  int64 d ->
  run es (NewTimerManager now d) = Some w ->
  deref w = Some (a, p) ->
  TimerData.IsComplete p = true ->
  0 <= TimerData.Duration p ->
  exists w', exec Tick w = Some w' /\ Snapshot w' = TimerData.Duration p.
Proof.
  intros Hd (_ & (Hb & _) & _ & Ht)%reachable_sound Hap Hc Hpos.
  destruct (Ht Hd) as [Htm _].
  pose proof Hap as [_ Hp]%deref_Some.
  destruct (Htm a p Hp) as [Hi _].
  simpl. rewrite Hb. unfold broadcastTick. rewrite Hap. simpl.
  eexists. split; [reflexivity |]. unfold Snapshot. simpl.
  rewrite Remaining_of_zero_elapsed; [lia | now apply Elapsed_complete | exact Hi].
Qed.

Lemma Snapshot_after_completion_witness :
  exists w w',
    run [CallStart; Advance 250; TimerFires 0] (NewTimerManager 1000 200) = Some w /\
    exec Tick w = Some w' /\ Snapshot w' = 200.
Proof.
  destruct (Snapshot_after_completion 1000 200 [CallStart; Advance 250; TimerFires 0]
              _ 0%nat _ ltac:(vm_compute; split; discriminate) eq_refl eq_refl eq_refl)
    as (w' & Ht & Hs).
  - simpl. lia.
  - eexists. exists w'. split; [| split]; [| exact Ht | exact Hs]. reflexivity.
Defined.

End TimerManagerLifetime.

(** * Further properties of the polybar package *)

Section StatusText.

Import polybar.
Local Open Scope string_scope.
Local Open Scope Z_scope.

Lemma rem_bound_neg (d m : Z) : d < 0 -> 0 < m -> - m < Z.rem d m <= 0.
Proof.
  intros Hd Hm.
  pose proof (Z.rem_bound_pos (- d) m ltac:(lia) Hm) as H.
  rewrite Z.rem_opp_l in H by lia. lia.
Qed.

Lemma Truncate_Second (d : Z) :
  focotimer.int64 d ->
  Truncate d focotimer.Second = focotimer.Second * (d ÷ focotimer.Second).
Proof.
  intros Hd. unfold Truncate.
  change (focotimer.Second <=? 0) with false. cbv iota.
  pose proof (Z.quot_rem' d focotimer.Second) as Hqr.
  replace (d - Z.rem d focotimer.Second)
    with (focotimer.Second * (d ÷ focotimer.Second)) by (change focotimer.Second with 1000000000 in *; lia).
  apply wrap64_id.
  assert (0 < focotimer.Second) as Hs by reflexivity.
  unfold focotimer.int64, focotimer.MinInt64, focotimer.MaxInt64 in *.
  destruct (Z.le_gt_cases 0 d) as [Hpos | Hneg].
  - pose proof (Z.rem_bound_pos d focotimer.Second Hpos Hs).
    change focotimer.Second with 1000000000 in *. lia.
  - pose proof (rem_bound_neg d focotimer.Second ltac:(lia) ltac:(lia)).
    change focotimer.Second with 1000000000 in *. lia.
Qed.

(** X15.  [truncToSecond] rounds toward zero to a whole number of seconds:
    the result is [Second * (d / Second)] with the quotient truncated, it
    differs from [d] by less than a second, and truncating again changes
    nothing.  The one exception is the most negative duration, whose
    negation overflows: it comes out positive. *)
Theorem truncToSecond_rounds_toward_zero (d : Z) :
  focotimer.int64 d ->
  (d <> focotimer.MinInt64 ->
     truncToSecond d = focotimer.Second * (d ÷ focotimer.Second) /\
     Z.abs (d - truncToSecond d) < focotimer.Second /\
     Z.abs (truncToSecond d) <= Z.abs d /\
     truncToSecond (truncToSecond d) = truncToSecond d) /\
  (d = focotimer.MinInt64 -> truncToSecond d = 9223372036 * focotimer.Second).
Proof.
  intros Hd. split; [| intros ->; vm_compute; reflexivity].
  intros Hmin.
  assert (0 < focotimer.Second) as Hs by reflexivity.
  assert (forall x, focotimer.int64 x -> x <> focotimer.MinInt64 ->
            truncToSecond x = focotimer.Second * (x ÷ focotimer.Second)) as Hform.
  { intros x Hx Hxm. unfold truncToSecond.
    destruct (Z.ltb_spec x 0) as [Hneg | Hpos].
    - assert (focotimer.int64 (- x)) as Hnx.
      { unfold focotimer.int64, focotimer.MinInt64, focotimer.MaxInt64 in *. lia. }
      rewrite (wrap64_id (- x)) by exact Hnx.
      rewrite Truncate_Second by exact Hnx.
      rewrite Z.quot_opp_l by lia.
      replace (- (focotimer.Second * - (x ÷ focotimer.Second)))
        with (focotimer.Second * (x ÷ focotimer.Second))
        by (change focotimer.Second with 1000000000 in *; lia).
      apply wrap64_id.
      pose proof (Z.quot_rem' x focotimer.Second).
      pose proof (rem_bound_neg x focotimer.Second ltac:(lia) ltac:(lia)).
      unfold focotimer.int64, focotimer.MinInt64, focotimer.MaxInt64 in *.
      change focotimer.Second with 1000000000 in *. lia.
    - now apply Truncate_Second. }
  rewrite (Hform d Hd Hmin).
  pose proof (Z.quot_rem' d focotimer.Second) as Hqr.
  assert (Z.abs (Z.rem d focotimer.Second) < focotimer.Second) as Hrem.
  { pose proof (Z.rem_bound_abs d focotimer.Second ltac:(lia)). lia. }
  assert (Z.abs (focotimer.Second * (d ÷ focotimer.Second)) <= Z.abs d) as Habs.
  { destruct (Z.le_gt_cases 0 d) as [Hpos | Hneg].
    - pose proof (Z.rem_bound_pos d focotimer.Second Hpos Hs).
      change focotimer.Second with 1000000000 in *. lia.
    - pose proof (rem_bound_neg d focotimer.Second ltac:(lia) ltac:(lia)).
      change focotimer.Second with 1000000000 in *. lia. }
  split; [reflexivity |]. split; [| split; [exact Habs |]].
  - replace (d - focotimer.Second * (d ÷ focotimer.Second))
      with (Z.rem d focotimer.Second) by (change focotimer.Second with 1000000000 in *; lia).
    exact Hrem.
  - rewrite Hform.
    + f_equal. rewrite Z.mul_comm, Z.quot_mul by lia. reflexivity.
    + unfold focotimer.int64, focotimer.MinInt64, focotimer.MaxInt64 in *.
      change focotimer.Second with 1000000000 in *. lia.
    + unfold focotimer.int64, focotimer.MinInt64, focotimer.MaxInt64 in *.
      change focotimer.Second with 1000000000 in *. lia.
Qed.

Lemma truncToSecond_rounds_toward_zero_witness :
  truncToSecond (-2750 * focotimer.Millisecond) = -2 * focotimer.Second /\
  truncToSecond (1500 * focotimer.Millisecond) = 1 * focotimer.Second.
Proof.
  destruct (truncToSecond_rounds_toward_zero (-2750 * focotimer.Millisecond))
    as [[H1 _] _]; [vm_compute; split; discriminate | discriminate |].
  destruct (truncToSecond_rounds_toward_zero (1500 * focotimer.Millisecond))
    as [[H2 _] _]; [vm_compute; split; discriminate | discriminate |].
  rewrite H1, H2. split; reflexivity.
Defined.

(** ** Labels *)

Lemma lastByte_snoc (b : string) (c : ascii) : lastByte (b ++ String c "") = Some c.
Proof.
  induction b as [| x b IH]; simpl; [reflexivity |].
  rewrite IH. destruct (b ++ String c "") eqn:E; [| reflexivity].
  destruct b; discriminate.
Qed.

Lemma dropLast_snoc (b : string) (c : ascii) : dropLast (b ++ String c "") = b.
Proof.
  induction b as [| x b IH]; simpl; [reflexivity |].
  rewrite IH. destruct (b ++ String c "") eqn:E; [| reflexivity].
  destruct b; discriminate.
Qed.

Lemma length_snoc (b : string) (c : ascii) :
  String.length (b ++ String c "") = S (String.length b).
Proof. induction b as [| x b IH]; simpl; [reflexivity | now rewrite IH]. Qed.

(** X16.  [polybarActionButton] strips exactly one trailing newline from the
    label: a label followed by a newline gives the button of the label
    itself, whatever the label (even one that ends in a newline, which then
    keeps it), and a label that does not end in a newline is used as it
    is. *)
Theorem polybarActionButton_strips_one_newline (button action : string) :
  polybarActionButton (button ++ String newline "") action
    = "%{A:" ++ action ++ ":} " ++ button ++ " %{A}" /\
  (lastByte button <> Some newline ->
   polybarActionButton button action
     = "%{A:" ++ action ++ ":} " ++ button ++ " %{A}").
Proof.
  unfold polybarActionButton. split.
  - rewrite lastByte_snoc, dropLast_snoc, length_snoc, Ascii.eqb_refl. reflexivity.
  - intros Hl. destruct (lastByte button) as [c |] eqn:E.
    + destruct (Ascii.eqb_spec c newline) as [-> | _]; [contradiction |].
      now rewrite andb_false_r.
    + now rewrite andb_false_r.
Qed.

Lemma polybarActionButton_strips_one_newline_witness :
  polybarActionButton "[+]" "echo 'inc' > /tmp/focotimer.pipe.4242"
    = "%{A:echo 'inc' > /tmp/focotimer.pipe.4242:} [+] %{A}".
Proof.
  apply (polybarActionButton_strips_one_newline "[+]"). discriminate.
Defined.

End StatusText.

Section CandidatePaths.

Import polybar allocation.
Local Open Scope string_scope.

Variable os : OS.
Variable base : string.
Variable mode : Z.

Lemma append_inj_l (s a b : string) : s ++ a = s ++ b -> a = b.
Proof. induction s as [| c s IH]; simpl; [auto |]. intros [= H]. auto. Qed.

Lemma append_nil_r (s : string) : s ++ "" = s.
Proof. induction s as [| c s IH]; simpl; [reflexivity | now rewrite IH]. Qed.

Lemma to_int_nonnil (z : Z) :
  Z.to_int z <> Decimal.Pos Decimal.Nil /\ Z.to_int z <> Decimal.Neg Decimal.Nil.
Proof.
  destruct z as [| q | q]; simpl; split; try discriminate;
    intros [= H]; now apply (DecimalPos.Unsigned.to_uint_nonnil q).
Qed.

(** The verb [%d] prints different integers differently. *)
Lemma itoa_inj (a b : Z) : itoa a = itoa b -> a = b.
Proof.
  unfold itoa. intros H.
  apply (f_equal NilZero.int_of_string) in H.
  destruct (to_int_nonnil a), (to_int_nonnil b).
  rewrite !NilZero.isi in H by assumption.
  injection H as H. apply (f_equal Z.of_int) in H.
  now rewrite !DecimalZ.of_to in H.
Qed.

(** What the loop returns from any starting point was created or reused, and
    is one of the candidates. *)
Lemma from_allocated (n left : nat) (path : string) :
  mkfifoFrom os base mode (Getpid os) (Z.of_nat n) left = Allocated path ->
  skipped os mode path = false /\ exists k, path = nth_candidate os base k.
Proof.
  intros Hp. pose proof (from_spec os base mode left n) as Hspec.
  rewrite Hp in Hspec. destruct Hspec as (k & _ & -> & _ & Hfin). split.
  - unfold skipped. destruct Hfin as [Hc | [_ Hr]].
    + unfold created, existsAlready in *.
      now destruct (Mkfifo os _ _).
    + rewrite Hr. apply andb_false_r.
  - eauto.
Qed.

Lemma mkfifoUnique_from :
  mkfifoUnique os base mode = mkfifoFrom os base mode (Getpid os) (Z.of_nat 0) 1000.
Proof. reflexivity. Qed.

(** X17.  The paths [mkfifoUnique] tries are pairwise distinct; the path it
    returns was not passed over, and begins with [base.<pid>]. *)
Theorem candidates_are_distinct :
  (forall i j : nat, nth_candidate os base i = nth_candidate os base j -> i = j) /\
  forall path, mkfifoUnique os base mode = Allocated path ->
    skipped os mode path = false /\
    exists rest, path = base ++ "." ++ itoa (Getpid os) ++ rest.
Proof.
  split.
  - intros i j. unfold nth_candidate, candidate.
    destruct (Z.eqb_spec (Z.of_nat i) 0) as [Hi | Hi],
             (Z.eqb_spec (Z.of_nat j) 0) as [Hj | Hj]; intros H.
    + lia.
    + rewrite <- (append_nil_r (itoa (Getpid os))) in H at 1.
      do 3 apply append_inj_l in H. discriminate.
    + rewrite <- (append_nil_r (itoa (Getpid os))) in H at 2.
      do 3 apply append_inj_l in H. discriminate.
    + do 4 apply append_inj_l in H. apply itoa_inj in H. lia.
  - intros path Hp. rewrite mkfifoUnique_from in Hp.
    destruct (from_allocated 0 _ path Hp) as [Hs (k & ->)].
    split; [exact Hs |].
    unfold nth_candidate, candidate.
    destruct (Z.of_nat k =? 0)%Z.
    + exists "". now rewrite append_nil_r.
    + eexists. reflexivity.
Qed.

End CandidatePaths.

Section CommandLoop.

Import polybar shutdown dispatch lifetime.
Local Open Scope string_scope.

Context {Callback : Type}.
Variable call : Callback -> State Callback -> option (State Callback).

(** X18.  With no callback registered, what a stream of tokens does to the
    coordinator is the run of the coordinator methods named by its
    recognised tokens, in order: unknown tokens and [gui] fall out, and the
    loop panics exactly when that run does.  The callback and the pipe path
    are left as they were. *)
Theorem scan_runs_the_named_methods
    (cmds : list string) (s : State Callback) (tm : focotimer.World) :
  timerManager s = Some tm ->
  guiToggleCallback s = None ->
  timerManager <$> handle_cmds_scan call cmds s
    = Some <$> focotimer.run (omap eventOf cmds) tm /\
  forall s', handle_cmds_scan call cmds s = Some s' ->
    guiToggleCallback s' = None /\ fifoPipePath s' = fifoPipePath s.
Proof.
  revert s tm. induction cmds as [| cmd cmds IH]; intros s tm Htm Hcb.
  - simpl. rewrite Htm. split; [reflexivity |]. intros s' [= <-]. auto.
  - assert (forall M e, eventOf cmd = Some e ->
              (forall w, focotimer.exec e w = M w) ->
              handle_cmd call cmd s = onManager M (logPrintf (LogReceived cmd) s) ->
              timerManager <$> handle_cmds_scan call (cmd :: cmds) s
                = Some <$> focotimer.run (omap eventOf (cmd :: cmds)) tm /\
              forall s', handle_cmds_scan call (cmd :: cmds) s = Some s' ->
                guiToggleCallback s' = None /\ fifoPipePath s' = fifoPipePath s) as Hmeth.
    { intros M e He HM Hh. simpl. rewrite He, Hh. simpl.
      unfold onManager, getTimerManager. simpl. rewrite Htm, HM.
      destruct (M tm) as [tm' |]; simpl; [| split; [reflexivity | discriminate]].
      destruct (IH (SetTimerManager (Some tm') (logPrintf (LogReceived cmd) s)) tm'
                  eq_refl Hcb) as [H1 H2].
      split; [exact H1 | exact H2]. }
    assert (forall s1, eventOf cmd = None ->
              handle_cmd call cmd s = Some s1 ->
              timerManager s1 = Some tm -> guiToggleCallback s1 = None ->
              fifoPipePath s1 = fifoPipePath s ->
              timerManager <$> handle_cmds_scan call (cmd :: cmds) s
                = Some <$> focotimer.run (omap eventOf (cmd :: cmds)) tm /\
              forall s', handle_cmds_scan call (cmd :: cmds) s = Some s' ->
                guiToggleCallback s' = None /\ fifoPipePath s' = fifoPipePath s) as Hnone.
    { intros s1 He Hh H1 H2 H3. simpl. rewrite He, Hh. simpl.
      rewrite <- H3. now apply IH. }
    unfold handle_cmd in *. unfold eventOf in *.
    destruct (String.eqb cmd "start") eqn:E1.
    { apply (Hmeth focotimer.Start focotimer.CallStart); reflexivity. }
    destruct (String.eqb cmd "gui") eqn:E2.
    { apply String.eqb_eq in E2. subst cmd. simpl in *. rewrite Hcb in *.
      now apply (Hnone (logPrintf (LogReceived "gui") s)). }
    destruct (String.eqb cmd "inc") eqn:E3.
    { apply (Hmeth focotimer.Inc focotimer.CallInc); reflexivity. }
    destruct (String.eqb cmd "dec") eqn:E4.
    { apply (Hmeth focotimer.Dec focotimer.CallDec); reflexivity. }
    destruct (String.eqb cmd "stop") eqn:E5.
    { apply (Hmeth focotimer.Stop focotimer.CallStop); reflexivity. }
    now apply (Hnone (logPrintf (LogUnknown cmd) (logPrintf (LogReceived cmd) s))).
Qed.




End CommandLoop.

Lemma scan_runs_the_named_methods_witness :
  let tm := focotimer.NewTimerManager 1000 (100 * focotimer.Millisecond) in
  let s := polybar.mkState "/tmp/focotimer.pipe.4242" (None : option unit) (Some tm) [] in
  let call := fun (_ : unit) (s : polybar.State unit) => Some s in
  polybar.timerManager <$>
    polybar.handle_cmds_scan call ["inc"; "bogus"; "inc"; "dec"; "gui"]%string s
  = Some <$> focotimer.run [focotimer.CallInc; focotimer.CallInc; focotimer.CallDec] tm.
Proof.
  intros tm s call.
  apply (scan_runs_the_named_methods call
           ["inc"; "bogus"; "inc"; "dec"; "gui"]%string s tm); reflexivity.
Defined.

Lemma candidates_are_distinct_witness :
  let os := polybar.mkOS 4242
    (fun path _ => if String.eqb path "/tmp/focotimer.pipe.4242"
                   then Some polybar.EEXIST else None)
    (fun path => Some (Z.lor polybar.ModeNamedPipe 438))
    (fun path => false) in
  allocation.skipped os 438 "/tmp/focotimer.pipe.4242.1" = false /\
  allocation.nth_candidate os "/tmp/focotimer.pipe" 0
    <> allocation.nth_candidate os "/tmp/focotimer.pipe" 1.
Proof.
  intros os.
  destruct (candidates_are_distinct os "/tmp/focotimer.pipe" 438) as [Hinj Hret].
  split.
  - apply (Hret "/tmp/focotimer.pipe.4242.1"%string). vm_compute. reflexivity.
  - intros H. apply Hinj in H. discriminate.
Defined.
